(** * The interval uptime meter of [utils/uptime/interval_meter.go]

    A shallow embedding of [intervalMeter] with its three methods [Start],
    [Stop] and [Read], and the properties the specification states about it.

    - Timestamps ([time.Time]) are integers: nanoseconds since the zero
      [Time], read off the wall clock (no monotonic reading).  A [Time]
      holds its seconds in an [int64], so [Time.Add] stops at the ends of
      that range.  Durations ([time.Duration]) are [int64] nanoseconds, so
      [Time.Sub] saturates and integer arithmetic on durations wraps.
    - [float64] arithmetic is a type class with two instances: [binary64]
      (IEEE 754 double precision, the kernel's primitive floats), on which
      the code is run as it is, and [exact] (the rationals), which does
      not round and shows what the roundings of the first approximate.
    - The integer division of [Read] panics on a zero divisor, so the
      methods return an [option]: [None] is the run-time panic. *)

From Stdlib Require Import ZArith QArith Qpower Floats List Bool Lia Lqa.
Import ListNotations.
Open Scope Z_scope.

(** ** Go's [int64] *)
Module int64.

(** [math.MinInt64 = -2^63] and [math.MaxInt64 = 2^63 - 1]. *)
Definition min : Z := -9223372036854775808.
Definition max : Z := 9223372036854775807.

(** Two's-complement wrap-around into [min .. max]. *)
Definition wrap (z : Z) : Z := (z - min) mod 2 ^ 64 + min.

(** [a * b] *)
Definition mul (a b : Z) : Z := wrap (a * b).

(** [a / b]: truncated towards zero; a zero divisor is a run-time panic. *)
Definition quo (a b : Z) : option Z :=
  if b =? 0 then None else Some (wrap (Z.quot a b)).

(** [uint(a)] on a 64-bit platform. *)
Definition to_uint (a : Z) : Z := a mod 2 ^ 64.

(** [a << s] for an [int] [a] and an unsigned count [s]: a count of 64 or
    more shifts every bit out. *)
Definition shl (a s : Z) : Z :=
  if 64 <=? s then 0 else wrap (Z.shiftl a s).

End int64.

(** ** The part of package [time] the meter uses *)
Module time.

(** [time.Duration]: an [int64] count of nanoseconds. *)
Definition Duration : Type := Z.

(** [time.Time]: an instant, as nanoseconds since the zero [Time]
    (the value of an unset [time.Time] field). *)
Definition Time : Type := Z.

Definition zero : Time := 0.
Definition Nanosecond : Duration := 1.
Definition Second : Duration := 1000000000.

(** [t.After(u)] *)
Definition After (t u : Time) : bool := u <? t.

(** [t.Sub(u)]: the difference, or the largest (smallest) [Duration] when
    the difference does not fit. *)
Definition Sub (t u : Time) : Duration :=
  Z.max int64.min (Z.min int64.max (t - u)).

(** A [Time] keeps whole seconds since the zero time in an [int64] and the
    nanoseconds within the second beside them: these are the first and the
    last instant it can hold. *)
Definition minTime : Time := int64.min * Second.
Definition maxTime : Time := int64.max * Second + (Second - 1).

(** An instant a [time.Time] can hold. *)
Definition valid (t : Time) : Prop := minTime <= t <= maxTime.

(** [addSec]: a sum of seconds that leaves [int64] is replaced by
    [1<<63 - 1] or by [-(1<<63 - 1)]. *)
Definition clampSec (sec : Z) : Z :=
  if int64.max <? sec then int64.max
  else if sec <? int64.min then - int64.max
  else sec.

(** [t.Add(d)]: the nanoseconds are carried into the seconds, and the
    seconds are added by [addSec]. *)
Definition Add (t : Time) (d : Duration) : Time :=
  let sec := (t + d) / Second in
  let nsec := (t + d) mod Second in
  clampSec sec * Second + nsec.

End time.

(** ** [float64] *)

(** The operations [Read] performs on [float64] values. *)
Class Float64 (F : Type) : Type := {
  of_int : Z -> F;          (* float64(x) for an integer x *)
  fadd : F -> F -> F;
  fsub : F -> F -> F;
  fmul : F -> F -> F;
  fdiv : F -> F -> F
}.

Declare Scope f64_scope.
Delimit Scope f64_scope with f64.
Notation "x + y" := (fadd x y) : f64_scope.
Notation "x - y" := (fsub x y) : f64_scope.
Notation "x * y" := (fmul x y) : f64_scope.
Notation "x / y" := (fdiv x y) : f64_scope.

(** [float64(z)] in IEEE 754 arithmetic, rounded to nearest even. *)
Definition float_of_int64 (z : Z) : float :=
  match z with
  | Z0 => PrimFloat.zero
  | Zpos _ => PrimFloat.of_uint63 (Uint63.of_Z z)
  | Zneg _ =>
      if z =? int64.min
      then PrimFloat.opp (PrimFloat.ldshiftexp 1%float (Uint63.of_Z (63 + FloatOps.shift)))
      else PrimFloat.opp (PrimFloat.of_uint63 (Uint63.of_Z (- z)))
  end.

(** IEEE 754 double precision: what the Go program computes with. *)
#[export] Instance binary64 : Float64 float := {
  of_int := float_of_int64;
  fadd := PrimFloat.add;
  fsub := PrimFloat.sub;
  fmul := PrimFloat.mul;
  fdiv := PrimFloat.div
}.

(** Exact rational arithmetic: [float64] without rounding, overflow or
    NaN.  A division by zero yields [0] here and an infinity or a NaN in
    [binary64]; [Read] divides by [float64(halflife)] and by a power of two
    only, so the two differ in kind only for a half-life that is not
    positive. *)
#[export] Instance exact : Float64 Q := {
  of_int := inject_Z;
  fadd := Qplus;
  fsub := Qminus;
  fmul := Qmult;
  fdiv := Qdiv
}.

(** ** Package [uptime] *)
Module uptime.

Import time.

Definition maxSkippedIntervals : Z := 32.

Section Meter.

Context {F : Type} `{Float64 F}.

Record intervalMeter : Type := {
  running : bool;
  started : Time;
  halflife : Duration;
  value : F;
  nextHalvening : Time;
  lastUpdated : Time
}.

Definition set_running (a : intervalMeter) (b : bool) : intervalMeter :=
  {| running := b; started := started a; halflife := halflife a;
     value := value a; nextHalvening := nextHalvening a;
     lastUpdated := lastUpdated a |}.

Definition set_value (a : intervalMeter) (v : F) : intervalMeter :=
  {| running := running a; started := started a; halflife := halflife a;
     value := v; nextHalvening := nextHalvening a;
     lastUpdated := lastUpdated a |}.

Definition set_nextHalvening (a : intervalMeter) (t : Time) : intervalMeter :=
  {| running := running a; started := started a; halflife := halflife a;
     value := value a; nextHalvening := t; lastUpdated := lastUpdated a |}.

Definition set_lastUpdated (a : intervalMeter) (t : Time) : intervalMeter :=
  {| running := running a; started := started a; halflife := halflife a;
     value := value a; nextHalvening := nextHalvening a; lastUpdated := t |}.

(** [NewIntervalMeter(halflife)]: every other field has its zero value. *)
Definition NewIntervalMeter (halflife : Duration) : intervalMeter :=
  {| running := false; started := zero; halflife := halflife;
     value := of_int 0; nextHalvening := zero; lastUpdated := zero |}.

(** Lines 55-61 of [Read], "try to finish the current round": settle the
    period that ends at [nextHalvening]. *)
Definition finishRound (a : intervalMeter) : intervalMeter :=
  let a :=
    if running a then
      let additionalRunningTime :=
        (of_int (Sub (nextHalvening a) (lastUpdated a)) / of_int (halflife a))%f64 in
      set_value a (value a + additionalRunningTime / of_int 2)%f64
    else a in
  let a := set_lastUpdated a (nextHalvening a) in
  let a := set_nextHalvening a (Add (nextHalvening a) (halflife a)) in
  set_value a (value a / of_int 2)%f64.

(** Lines 70-77 of [Read]: the meter has not been read for more than
    [maxSkippedIntervals] periods. *)
Definition jump (a : intervalMeter) (currentTime : Time) : intervalMeter :=
  let a := if running a then set_value a (of_int 1) else set_value a (of_int 0) in
  let a := set_lastUpdated a currentTime in
  set_nextHalvening a (Add (lastUpdated a) (halflife a)).

(** Lines 80-89 of [Read]: skip [numSkippedPeriods] rounds in closed form. *)
Definition skipRounds (a : intervalMeter) (numSkippedPeriods : Z) : intervalMeter :=
  let invFactor := int64.shl 1 (int64.to_uint numSkippedPeriods) in
  let factor := (of_int 1 / of_int invFactor)%f64 in
  let a := set_value a (value a * factor)%f64 in
  let a := if running a then set_value a (value a + (of_int 1 - factor))%f64 else a in
  let a := set_value a (value a / of_int 2)%f64 in
  let skippedDuration := int64.mul (halflife a) numSkippedPeriods in
  let a := set_lastUpdated a (Add (lastUpdated a) skippedDuration) in
  set_nextHalvening a (Add (nextHalvening a) skippedDuration).

(** Lines 93-99 of [Read], "increment the value for the current round". *)
Definition incrementRound (a : intervalMeter) (currentTime : Time) : intervalMeter :=
  let a :=
    if running a then
      let additionalRunningTime :=
        (of_int (Sub currentTime (lastUpdated a)) / of_int (halflife a))%f64 in
      set_value a (value a + additionalRunningTime / of_int 2)%f64
    else a in
  set_lastUpdated a currentTime.

(** [a.Read(currentTime)]: the meter after the call and the value
    returned, or [None] when the call panics. *)
Definition Read (a : intervalMeter) (currentTime : Time) : option (intervalMeter * F) :=
  if negb (After currentTime (lastUpdated a)) then Some (a, value a)
  else if After currentTime (nextHalvening a) then
    let a := finishRound a in
    let totalTime := Sub currentTime (lastUpdated a) in
    if halflife a <? totalTime then
      match int64.quo totalTime (halflife a) with
      | None => None
      | Some numSkippedPeriods =>
          if maxSkippedIntervals <? numSkippedPeriods then
            let a := jump a currentTime in
            Some (a, value a)
          else
            let a := incrementRound (skipRounds a numSkippedPeriods) currentTime in
            Some (a, value a)
      end
    else
      let a := incrementRound a currentTime in
      Some (a, value a)
  else
    let a := incrementRound a currentTime in
    Some (a, value a).

(** [a.Start(currentTime)] *)
Definition Start (a : intervalMeter) (currentTime : Time) : option intervalMeter :=
  if running a then Some a
  else
    match Read a currentTime with
    | None => None
    | Some (a, _) => Some (set_running a true)
    end.

(** [a.Stop(currentTime)] *)
Definition Stop (a : intervalMeter) (currentTime : Time) : option intervalMeter :=
  if negb (running a) then Some a
  else
    match Read a currentTime with
    | None => None
    | Some (a, _) => Some (set_running a false)
    end.

(** *** Sequences of calls *)

(** One call of a method of the [Meter] interface. *)
Inductive call : Type :=
| CallStart (currentTime : Time)
| CallStop (currentTime : Time)
| CallRead (currentTime : Time).

(** The meter after one call ([None]: the call panicked). *)
Definition exec (a : intervalMeter) (c : call) : option intervalMeter :=
  match c with
  | CallStart t => Start a t
  | CallStop t => Stop a t
  | CallRead t => match Read a t with Some (a, _) => Some a | None => None end
  end.

(** The meter after a sequence of calls, first call first. *)
Fixpoint run (a : intervalMeter) (cs : list call) : option intervalMeter :=
  match cs with
  | [] => Some a
  | c :: cs => match exec a c with Some a => run a cs | None => None end
  end.

(** [Read(currentTime)] on [a] reaches lines 70-77: it passes the guard,
    crosses [nextHalvening], and counts more than [maxSkippedIntervals]
    whole periods from there to [currentTime]. *)
Definition jumps (a : intervalMeter) (currentTime : Time) : bool :=
  After currentTime (lastUpdated a) && After currentTime (nextHalvening a)
  && (maxSkippedIntervals <? Z.quot (Sub currentTime (nextHalvening a)) (halflife a)).

(** The time a call passes. *)
Definition callTime (c : call) : Time :=
  match c with CallStart t | CallStop t | CallRead t => t end.

(** Every call of the sequence comes at least one [halflife] before the
    last instant a [Time] can hold. *)
Definition beforeEnd (halflife : Duration) (cs : list call) : bool :=
  forallb (fun c => callTime c + halflife <=? maxTime) cs.

(** Lines 55-61 applied [n] times over: [n] rounds finished one by one. *)
Definition finishRounds (n : nat) (a : intervalMeter) : intervalMeter :=
  Nat.iter n finishRound a.

(** [nextHalvening] is not before [lastUpdated] and at most one half-life
    after it. *)
Definition inPeriod (a : intervalMeter) : Prop :=
  lastUpdated a <= nextHalvening a <= lastUpdated a + halflife a.

(** The branch a call of [Read] takes. *)
Inductive ReadPath (a : intervalMeter) (now : Time) : option (intervalMeter * F) -> Prop :=
| PathGuard :
    After now (lastUpdated a) = false ->
    ReadPath a now (Some (a, value a))
| PathSameRound :
    After now (lastUpdated a) = true ->
    After now (nextHalvening a) = false ->
    ReadPath a now (Some (incrementRound a now, value (incrementRound a now)))
| PathNextRound :
    After now (lastUpdated a) = true ->
    After now (nextHalvening a) = true ->
    Sub now (nextHalvening a) <= halflife a ->
    ReadPath a now
      (Some (incrementRound (finishRound a) now,
             value (incrementRound (finishRound a) now)))
| PathPanic :
    After now (lastUpdated a) = true ->
    After now (nextHalvening a) = true ->
    halflife a = 0 ->
    ReadPath a now None
| PathJump k :
    After now (lastUpdated a) = true ->
    After now (nextHalvening a) = true ->
    halflife a < Sub now (nextHalvening a) ->
    int64.quo (Sub now (nextHalvening a)) (halflife a) = Some k ->
    maxSkippedIntervals < k ->
    ReadPath a now
      (Some (jump (finishRound a) now, value (jump (finishRound a) now)))
| PathSkip k :
    After now (lastUpdated a) = true ->
    After now (nextHalvening a) = true ->
    halflife a < Sub now (nextHalvening a) ->
    int64.quo (Sub now (nextHalvening a)) (halflife a) = Some k ->
    k <= maxSkippedIntervals ->
    ReadPath a now
      (Some (incrementRound (skipRounds (finishRound a) k) now,
             value (incrementRound (skipRounds (finishRound a) k) now))).

End Meter.

Arguments intervalMeter F : clear implicits.

(** A half-life the meter is built for: positive, and short enough that a
    saturated [Time.Sub] still counts more than [maxSkippedIntervals]
    periods (at most [math.MaxInt64 / 33] ns, about 8.8 years). *)
Definition usable (halflife : Duration) : Prop :=
  0 < halflife /\ (maxSkippedIntervals + 1) * halflife <= int64.max.

End uptime.

(** ** Quantities the statements below use *)

Import time uptime.

(** No call of the sequence is a [Start]. *)
Definition noStart (cs : list call) : bool :=
  forallb (fun c => match c with CallStart _ => false | _ => true end) cs.

(** What is left of the current period, in half-lives (exact arithmetic). *)
Definition remaining (a : intervalMeter Q) : Q :=
  inject_Z (nextHalvening a - lastUpdated a) / inject_Z (halflife a).

(** [value] is not negative, and with all that can still be added to it
    before the next halving it is at most [bound]. *)
Definition within (bound : Q) (a : intervalMeter Q) : Prop :=
  (0 <= value a)%Q /\ (value a + remaining a / 2 <= bound)%Q.

(** [running] after a sequence of calls on a meter whose [running] is [r]:
    what the last [Start] or [Stop] of the sequence says. *)
Fixpoint runningAfter (r : bool) (cs : list call) : bool :=
  match cs with
  | [] => r
  | CallStart _ :: cs => runningAfter true cs
  | CallStop _ :: cs => runningAfter false cs
  | CallRead _ :: cs => runningAfter r cs
  end.

(** The meter [a] with its three timestamps moved by [d]. *)
Definition shiftTime {F : Type} (d : Duration) (a : intervalMeter F) : intervalMeter F :=
  {| running := running a; started := started a + d;
     halflife := halflife a; value := value a;
     nextHalvening := nextHalvening a + d;
     lastUpdated := lastUpdated a + d |}.

(** * Properties *)

Arguments Sub : simpl never.
Arguments Add : simpl never.
Arguments After : simpl never.
Arguments int64.mul : simpl never.
Arguments int64.shl : simpl never.
Arguments int64.to_uint : simpl never.
Arguments int64.quo : simpl never.

(** ** Integer and time arithmetic *)

(** Turn the outcomes of [After] into inequalities. *)
Ltac times :=
  repeat match goal with
    | Hx : After _ _ = true |- _ => apply Z.ltb_lt in Hx
    | Hx : After _ _ = false |- _ => apply Z.ltb_ge in Hx
    end.

(** An equation between two returned pairs, read componentwise. *)
Lemma Some_pair {A B : Type} (x a : A) (y b : B) :
  Some (x, y) = Some (a, b) -> x = a /\ y = b.
Proof. intros [= -> ->]. auto. Qed.

Ltac returned :=
  let E := fresh "E" in
  intros E;
  first [discriminate E | apply Some_pair in E; destruct E as [<- <-]].

Lemma wrap_in_range (z : Z) :
  int64.min <= z <= int64.max -> int64.wrap z = z.
Proof.
  unfold int64.wrap, int64.min, int64.max. intros Hz.
  rewrite Z.mod_small by lia. lia.
Qed.

Lemma Sub_in_range (t u : time.Time) :
  int64.min <= time.Sub t u <= int64.max.
Proof. unfold time.Sub, int64.min, int64.max. lia. Qed.

Lemma Sub_exact (t u : time.Time) :
  int64.min <= t - u <= int64.max -> time.Sub t u = t - u.
Proof. unfold time.Sub. lia. Qed.

Lemma Sub_pos (t u : time.Time) : u < t -> 0 < time.Sub t u.
Proof. unfold time.Sub, int64.min, int64.max. lia. Qed.

Lemma Sub_le (t u : time.Time) : u < t -> time.Sub t u <= t - u.
Proof. unfold time.Sub, int64.min, int64.max. lia. Qed.

(** [Add] is the sum whenever the sum is an instant a [Time] can hold. *)
Lemma Add_exact (t : time.Time) (d : time.Duration) :
  time.valid (t + d) -> time.Add t d = t + d.
Proof.
  unfold time.valid, time.minTime, time.maxTime, time.Add, time.clampSec,
    time.Second, int64.min, int64.max.
  intros Hv. cbv zeta.
  pose proof (Z.div_mod (t + d) 1000000000 ltac:(lia)) as Hdm.
  pose proof (Z.mod_pos_bound (t + d) 1000000000 ltac:(lia)) as Hm.
  destruct (Z.ltb_spec 9223372036854775807 ((t + d) / 1000000000)); [lia|].
  destruct (Z.ltb_spec ((t + d) / 1000000000) (-9223372036854775808)); lia.
Qed.

(** Past the last instant [Add] keeps the last second. *)
Lemma Add_past_end (t : time.Time) (d : time.Duration) :
  time.maxTime < t + d ->
  time.Add t d = int64.max * time.Second + (t + d) mod time.Second.
Proof.
  unfold time.maxTime, time.Add, time.clampSec, time.Second, int64.max.
  intros Hv. cbv zeta.
  pose proof (Z.div_mod (t + d) 1000000000 ltac:(lia)) as Hdm.
  pose proof (Z.mod_pos_bound (t + d) 1000000000 ltac:(lia)) as Hm.
  destruct (Z.ltb_spec 9223372036854775807 ((t + d) / 1000000000)); lia.
Qed.

(** Two durations that are not negative, added one after the other to an
    instant a [Time] can hold, or at once. *)
Lemma Add_Add (t : time.Time) (d e : time.Duration) :
  time.valid t -> 0 <= d -> 0 <= e ->
  time.Add (time.Add t d) e = time.Add t (d + e).
Proof.
  intros Hv Hd He.
  destruct (Z.le_gt_cases (t + d) time.maxTime) as [Hin|Hout].
  - rewrite (Add_exact t d) by (unfold time.valid in *; lia).
    unfold time.Add. rewrite Z.add_assoc. reflexivity.
  - rewrite (Add_past_end t d Hout).
    assert (Hm : 0 <= (t + d) mod time.Second < time.Second)
      by (apply Z.mod_pos_bound; reflexivity).
    set (r := (t + d) mod time.Second) in *.
    assert (Hs : (int64.max * time.Second + r + e) mod time.Second
                 = (r + e) mod time.Second).
    { rewrite <- Z.add_assoc, Z.add_comm, Z_mod_plus_full. reflexivity. }
    assert (Hr : (r + e) mod time.Second = (t + (d + e)) mod time.Second).
    { unfold r. rewrite Zplus_mod_idemp_l. f_equal. lia. }
    rewrite (Add_past_end t (d + e)) by lia.
    destruct (Z.le_gt_cases (int64.max * time.Second + r + e) time.maxTime)
      as [Hin'|Hout'].
    + rewrite Add_exact by (unfold time.valid, time.minTime, time.maxTime,
        time.Second, int64.min, int64.max in *; lia).
      rewrite <- Hr, Z.mod_small;
        unfold time.maxTime, time.Second, int64.max in *; lia.
    + rewrite Add_past_end by exact Hout'. rewrite Hs, Hr. reflexivity.
Qed.

(** The quotient of a positive [int64] by a positive one: no panic, no
    wrap-around, and the usual bounds. *)
Lemma quo_pos (n d : Z) :
  0 < n <= int64.max -> 0 < d ->
  int64.quo n d = Some (Z.quot n d) /\
  0 <= Z.quot n d <= n /\
  d * Z.quot n d <= n < d * (Z.quot n d + 1).
Proof.
  intros Hn Hd. unfold int64.quo.
  destruct (Z.eqb_spec d 0) as [->|_]; [lia|].
  rewrite Z.quot_div_nonneg by lia.
  pose proof (Z.div_pos n d ltac:(lia) Hd) as Hq0.
  pose proof (Z.mul_div_le n d Hd) as Hlo.
  pose proof (Z.mul_succ_div_gt n d Hd) as Hhi.
  assert (Hqn : n / d <= n) by nia.
  rewrite wrap_in_range by (unfold int64.min, int64.max in *; lia).
  repeat split; lia.
Qed.


(** ** What each block of [Read] does to the fields other than [value] *)

Section Timestamps.

Context {F : Type} `{Float64 F}.
Implicit Types (a : intervalMeter F) (now : Time) (c : call) (cs : list call).

Lemma finishRound_fields a :
  running (finishRound a) = running a /\
  halflife (finishRound a) = halflife a /\
  lastUpdated (finishRound a) = nextHalvening a /\
  nextHalvening (finishRound a) = Add (nextHalvening a) (halflife a).
Proof. unfold finishRound. destruct (running a) eqn:E; cbn; rewrite ?E; auto. Qed.

Lemma jump_fields a now :
  running (jump a now) = running a /\
  halflife (jump a now) = halflife a /\
  lastUpdated (jump a now) = now /\
  nextHalvening (jump a now) = Add now (halflife a).
Proof. unfold jump. destruct (running a) eqn:E; cbn; rewrite ?E; auto. Qed.

Lemma skipRounds_fields a k :
  running (skipRounds a k) = running a /\
  halflife (skipRounds a k) = halflife a /\
  lastUpdated (skipRounds a k) = Add (lastUpdated a) (int64.mul (halflife a) k) /\
  nextHalvening (skipRounds a k) = Add (nextHalvening a) (int64.mul (halflife a) k).
Proof. unfold skipRounds. destruct (running a) eqn:E; cbn; rewrite ?E; auto. Qed.

Lemma incrementRound_fields a now :
  running (incrementRound a now) = running a /\
  halflife (incrementRound a now) = halflife a /\
  lastUpdated (incrementRound a now) = now /\
  nextHalvening (incrementRound a now) = nextHalvening a.
Proof. unfold incrementRound. destruct (running a) eqn:E; cbn; rewrite ?E; auto. Qed.

(** The [value] each block leaves in a meter that is not running. *)
Lemma finishRound_stopped a :
  running a = false -> value (finishRound a) = (value a / of_int 2)%f64.
Proof. unfold finishRound. intros ->. reflexivity. Qed.

Lemma skipRounds_stopped a k :
  running a = false ->
  value (skipRounds a k) =
    (value a * (of_int 1 / of_int (int64.shl 1 (int64.to_uint k))) / of_int 2)%f64.
Proof. unfold skipRounds. cbn [running set_value]. intros ->. reflexivity. Qed.

Lemma incrementRound_stopped a now :
  running a = false -> value (incrementRound a now) = value a.
Proof. unfold incrementRound. intros ->. reflexivity. Qed.

Lemma jump_stopped a now :
  running a = false -> value (jump a now) = of_int 0.
Proof. unfold jump. intros ->. reflexivity. Qed.

Lemma Read_path a now : ReadPath a now (Read a now).
Proof.
  unfold Read.
  destruct (After now (lastUpdated a)) eqn:HL; cbn [negb];
    [|apply PathGuard; assumption].
  destruct (After now (nextHalvening a)) eqn:HN;
    [|apply PathSameRound; assumption].
  cbv zeta.
  destruct (finishRound_fields a) as (_ & -> & -> & _).
  destruct (Z.ltb_spec (halflife a) (Sub now (nextHalvening a))) as [Hlt|Hge];
    [|apply PathNextRound; assumption].
  destruct (int64.quo _ _) as [k|] eqn:Hk.
  - destruct (Z.ltb_spec maxSkippedIntervals k).
    + apply (PathJump a now k); assumption.
    + apply (PathSkip a now k); assumption.
  - apply PathPanic; auto. unfold int64.quo in Hk.
    destruct (Z.eqb_spec (halflife a) 0); [assumption|discriminate].
Qed.

(** [Read] panics for a zero half-life only. *)
Lemma Read_total a now :
  halflife a <> 0 -> exists a', Read a now = Some (a', value a').
Proof.
  intros Hh. destruct (Read_path a now); try contradiction; eauto.
Qed.

(** A call of [Read] that returns: it returns the [value] it leaves in the
    meter, keeps [running] and [halflife], and either changes nothing or
    moves [lastUpdated] forward to [now]. *)
Lemma Read_Some a now a' v :
  Read a now = Some (a', v) ->
  v = value a' /\ running a' = running a /\ halflife a' = halflife a /\
  ((a' = a /\ now <= lastUpdated a) \/
   (lastUpdated a < now /\ lastUpdated a' = now)).
Proof.
  pose proof (finishRound_fields a) as (Fr & Fh & _).
  destruct (Read_path a now); returned; times.
  - auto 6.
  - destruct (incrementRound_fields a now) as (-> & -> & -> & _). auto 6.
  - destruct (incrementRound_fields (finishRound a) now) as (-> & -> & -> & _).
    auto 6.
  - destruct (jump_fields (finishRound a) now) as (-> & -> & -> & _). auto 6.
  - destruct (incrementRound_fields (skipRounds (finishRound a) k) now)
      as (-> & -> & -> & _).
    destruct (skipRounds_fields (finishRound a) k) as (-> & -> & _). auto 6.
Qed.

Lemma exec_Some a c a' :
  exec a c = Some a' ->
  halflife a' = halflife a /\ lastUpdated a <= lastUpdated a'.
Proof.
  destruct c as [t|t|t]; cbn [exec]; unfold Start, Stop.
  - destruct (running a); [intros [= <-]; lia|].
    destruct (Read a t) as [[b v]|] eqn:E; [|discriminate].
    intros [= <-]. apply Read_Some in E as (_ & _ & Hh & [[-> _]|[? ?]]);
      cbn; lia.
  - destruct (running a); cbn [negb]; [|intros [= <-]; lia].
    destruct (Read a t) as [[b v]|] eqn:E; [|discriminate].
    intros [= <-]. apply Read_Some in E as (_ & _ & Hh & [[-> _]|[? ?]]);
      cbn; lia.
  - destruct (Read a t) as [[b v]|] eqn:E; [|discriminate].
    intros [= <-]. apply Read_Some in E as (_ & _ & Hh & [[-> _]|[? ?]]);
      cbn; lia.
Qed.

Lemma exec_total a c : halflife a <> 0 -> exists a', exec a c = Some a'.
Proof.
  intros Hh. destruct c as [t|t|t]; cbn [exec]; unfold Start, Stop;
    destruct (Read_total a t Hh) as [b ->]; destruct (running a); cbn; eauto.
Qed.

Lemma run_total a cs : halflife a <> 0 -> exists a', run a cs = Some a'.
Proof.
  revert a. induction cs as [|c cs IH]; intros a Hh; cbn [run]; [eauto|].
  destruct (exec_total a c Hh) as [b E]. rewrite E.
  apply IH. apply exec_Some in E as [-> _]. assumption.
Qed.

End Timestamps.

(** ** Properties that hold whatever the arithmetic on [value] is *)

Section AnyArithmetic.

Context {F : Type} `{Float64 F}.
Implicit Types (a : intervalMeter F) (now : Time) (c : call) (cs : list call).

(** C6. A [now] that is not after [lastUpdated] makes [Read] return the
    current [value] and leave the meter as it is, without a panic; and a
    second [Read] at the same [now] returns the value of the first and
    changes nothing. *)
Theorem Read_monotonic_guard a now :
  (After now (lastUpdated a) = false -> Read a now = Some (a, value a)) /\
  (forall a' v, Read a now = Some (a', v) -> Read a' now = Some (a', v)).
Proof.
  assert (G : forall b t, After t (lastUpdated b) = false ->
                          Read b t = Some (b, value b)).
  { intros b t Hb. unfold Read. rewrite Hb. reflexivity. }
  split; [apply G|].
  intros a' v E. apply Read_Some in E as (-> & _ & _ & [[-> Hle]|[_ HL]]);
    apply G; unfold After; apply Z.ltb_ge; lia.
Qed.


(** [lastUpdated] does not decrease along a run that does not panic. *)
Lemma run_lastUpdated a cs a' :
  run a cs = Some a' ->
  halflife a' = halflife a /\ lastUpdated a <= lastUpdated a'.
Proof.
  revert a. induction cs as [|c cs IH]; intros a; cbn [run].
  - intros [= <-]. lia.
  - destruct (exec a c) as [b|] eqn:E; [|discriminate].
    intros R. apply exec_Some in E as [Eh El].
    apply IH in R as [Rh Rl]. split; [congruence|lia].
Qed.

(** C10. Every sequence of [Start], [Stop] and [Read] calls, with any
    [now] arguments, runs to the end on a meter whose half-life is not
    zero, and leaves [lastUpdated] where it was or later. *)
Theorem lastUpdated_never_decreases a cs :
  halflife a <> 0 ->
  exists a', run a cs = Some a' /\ lastUpdated a <= lastUpdated a'.
Proof.
  intros Hh. destruct (run_total a cs Hh) as [a' R].
  exists a'. split; [exact R|]. apply (run_lastUpdated a cs a' R).
Qed.

(** *** [nextHalvening] against [lastUpdated] *)

(** A [Read] that comes one half-life before the last instant keeps
    [nextHalvening] within one half-life after [lastUpdated]: every [Add]
    it performs is then a sum. *)
Lemma Read_inPeriod a now a' v :
  usable (halflife a) -> inPeriod a -> minTime <= nextHalvening a ->
  now + halflife a <= maxTime ->
  Read a now = Some (a', v) ->
  inPeriod a' /\ minTime <= nextHalvening a'.
Proof.
  unfold usable, inPeriod, maxSkippedIntervals. intros [Hh Hmax] I Hmin Hend.
  pose proof (finishRound_fields a) as (_ & Fh & FL & FN).
  pose proof (Sub_in_range now (nextHalvening a)) as Hr.
  destruct (Read_path a now)
    as [G|HL G|HL HN G|HL HN G|k HL HN Hlt Hq G|k HL HN Hlt Hq G];
    returned; times.
  - split; [exact I|exact Hmin].
  - destruct (incrementRound_fields a now) as (_ & -> & -> & ->). lia.
  - destruct (incrementRound_fields (finishRound a) now) as (_ & -> & -> & ->).
    rewrite Fh, FN, Add_exact by (unfold valid; lia).
    unfold Sub, int64.min, int64.max in *. lia.
  - destruct (jump_fields (finishRound a) now) as (_ & -> & -> & ->).
    rewrite Fh, Add_exact by (unfold valid; lia). lia.
  - destruct (incrementRound_fields (skipRounds (finishRound a) k) now)
      as (_ & -> & -> & ->).
    destruct (skipRounds_fields (finishRound a) k) as (_ & -> & _ & ->).
    rewrite Fh, FN.
    destruct (quo_pos (Sub now (nextHalvening a)) (halflife a))
      as (Hq' & Hk & Hlo & Hhi); [lia|lia|].
    rewrite Hq' in Hq. injection Hq as <-.
    unfold int64.mul. rewrite wrap_in_range by (unfold int64.min in *; nia).
    unfold maxSkippedIntervals in G.
    assert (Hns : Sub now (nextHalvening a) < int64.max) by nia.
    assert (Hex : Sub now (nextHalvening a) = now - nextHalvening a).
    { clear - Hns HN. unfold Sub, int64.min, int64.max in *. lia. }
    rewrite Hex in Hlo, Hhi |- *.
    rewrite (Add_exact (nextHalvening a) (halflife a)) by (unfold valid; lia).
    rewrite Add_exact by (unfold valid; nia). nia.
Qed.

Lemma exec_inPeriod a c a' :
  usable (halflife a) -> inPeriod a -> minTime <= nextHalvening a ->
  callTime c + halflife a <= maxTime ->
  exec a c = Some a' ->
  inPeriod a' /\ minTime <= nextHalvening a'.
Proof.
  intros U I Hmin Hend. destruct c as [t|t|t]; cbn [exec callTime] in *;
    unfold Start, Stop.
  - destruct (running a); [intros [= <-]; auto|].
    destruct (Read a t) as [[b v]|] eqn:E; [|discriminate].
    intros [= <-]. apply (Read_inPeriod a t b v U I Hmin Hend E).
  - destruct (running a); cbn [negb]; [|intros [= <-]; auto].
    destruct (Read a t) as [[b v]|] eqn:E; [|discriminate].
    intros [= <-]. apply (Read_inPeriod a t b v U I Hmin Hend E).
  - destruct (Read a t) as [[b v]|] eqn:E; [|discriminate].
    intros [= <-]. apply (Read_inPeriod a t b v U I Hmin Hend E).
Qed.

Lemma run_inPeriod a cs a' :
  usable (halflife a) -> inPeriod a -> minTime <= nextHalvening a ->
  beforeEnd (halflife a) cs = true ->
  run a cs = Some a' ->
  inPeriod a' /\ minTime <= nextHalvening a'.
Proof.
  revert a. induction cs as [|c cs IH]; intros a U I Hmin B; cbn [run].
  - intros [= <-]. auto.
  - destruct (exec a c) as [b|] eqn:E; [|discriminate].
    pose proof (exec_Some a c b E) as [Eh _].
    cbn [beforeEnd forallb] in B. apply andb_true_iff in B as [Bc B].
    apply Z.leb_le in Bc.
    destruct (exec_inPeriod a c b U I Hmin Bc E) as [Ib Mb].
    apply IH; [rewrite Eh; exact U|exact Ib|exact Mb|rewrite Eh; exact B].
Qed.

(** A [Read] at exactly [nextHalvening] does not pass it. *)
Lemma Read_at_nextHalvening a :
  lastUpdated a <= nextHalvening a ->
  exists a',
    Read a (nextHalvening a) = Some (a', value a') /\
    nextHalvening a' = lastUpdated a'.
Proof.
  intros Hle. unfold Read, After.
  destruct (Z.ltb_spec (lastUpdated a) (nextHalvening a)) as [Hlt|Hge]; cbn [negb].
  - exists (incrementRound a (nextHalvening a)).
    destruct (incrementRound_fields a (nextHalvening a)) as (_ & _ & -> & ->).
    rewrite Z.ltb_irrefl. split; reflexivity.
  - exists a. split; [reflexivity|lia].
Qed.

(** C7, as the code has it. On a meter with a [usable] half-life, and for
    calls that each come at least one half-life before the last instant a
    [Time] can hold: from construction on and after every call,
    [nextHalvening] is [lastUpdated] or later, and at most one half-life
    later.  The two are equal in a new meter, and equal again after a
    [Read] at [nextHalvening] itself. *)
Theorem nextHalvening_not_before_lastUpdated (h : Duration) cs :
  usable h -> beforeEnd h cs = true ->
  exists a : intervalMeter F,
    run (NewIntervalMeter h) cs = Some a /\
    lastUpdated a <= nextHalvening a <= lastUpdated a + h /\
    nextHalvening (NewIntervalMeter (F := F) h)
      = lastUpdated (NewIntervalMeter (F := F) h) /\
    (exists a',
       Read a (nextHalvening a) = Some (a', value a') /\
       nextHalvening a' = lastUpdated a').
Proof.
  intros U B. pose proof U as [Hh _].
  destruct (run_total (NewIntervalMeter h) cs) as [a R]; [cbn; lia|].
  exists a. split; [exact R|].
  pose proof (run_lastUpdated _ _ _ R) as [Eh _]. cbn in Eh.
  destruct (run_inPeriod (NewIntervalMeter h) cs a) as [I _]; auto.
  - unfold inPeriod. cbn. unfold zero. lia.
  - cbn. unfold zero, minTime, int64.min, Second. lia.
  - unfold inPeriod in I. rewrite Eh in I.
    split; [exact I|]. split; [reflexivity|].
    apply Read_at_nextHalvening. lia.
Qed.

(** *** One half-life after [lastUpdated] *)

(** What [Read] computes one half-life after [lastUpdated] on a running
    meter, operation by operation: with [r] the time left of the period,
    the round is finished with [r / halflife / 2] added and the sum halved,
    and [(halflife - r) / halflife / 2] is added for the new round; when
    the boundary is not crossed, [halflife / halflife / 2] is added. *)
Lemma Read_one_halflife_later_value a :
  0 < halflife a <= int64.max -> inPeriod a -> running a = true ->
  exists a',
    Read a (lastUpdated a + halflife a) = Some (a', value a') /\
    (nextHalvening a < lastUpdated a + halflife a ->
     value a' =
       ((value a
         + of_int (nextHalvening a - lastUpdated a) / of_int (halflife a)
           / of_int 2) / of_int 2
        + of_int (lastUpdated a + halflife a - nextHalvening a)
          / of_int (halflife a) / of_int 2)%f64) /\
    (nextHalvening a = lastUpdated a + halflife a ->
     value a' =
       (value a + of_int (halflife a) / of_int (halflife a) / of_int 2)%f64).
Proof.
  intros [Hh Hmax] I R. unfold int64.max in Hmax.
  destruct (Read_path a (lastUpdated a + halflife a))
    as [G|HL G|HL HN G|HL HN G|k HL HN Hlt Hq G|k HL HN Hlt Hq G]; times;
    try (exfalso; unfold inPeriod, Sub, int64.min, int64.max in *; lia).
  - eexists. split; [reflexivity|].
    destruct a as [r s h u N L]; unfold inPeriod in *.
    cbn [running started halflife value nextHalvening lastUpdated] in *.
    subst r.
    assert (E : Sub (L + h) L = h)
      by (unfold Sub, int64.min, int64.max; lia).
    cbn. rewrite E. split; [lia|reflexivity].
  - eexists. split; [reflexivity|].
    destruct a as [r s h u N L]; unfold inPeriod in *.
    cbn [running started halflife value nextHalvening lastUpdated] in *.
    subst r.
    assert (E1 : Sub N L = N - L)
      by (unfold Sub, int64.min, int64.max; lia).
    assert (E2 : Sub (L + h) N = L + h - N)
      by (unfold Sub, int64.min, int64.max; lia).
    cbn. rewrite E1, E2. split; [reflexivity|lia].
Qed.

(** *** A half-life that is not [usable] *)

(** The bound of [usable] cannot be dropped: for every longer half-life, a
    new meter read once, [2^64] ns or more after the zero time (all wall
    clock times of this millennium are), is left with [nextHalvening]
    before [lastUpdated]. [Time.Sub] saturates, and fewer than 33 periods
    are counted. *)
Lemma longer_halflife_leaves_period (h : Duration) (now : Time) :
  0 < h <= int64.max -> ~ usable h -> 2 ^ 64 <= now ->
  exists a : intervalMeter F,
    Read (NewIntervalMeter h) now = Some (a, value a) /\
    nextHalvening a < lastUpdated a.
Proof.
  intros Hh Hu Hnow. unfold usable, maxSkippedIntervals in Hu.
  set (a0 := NewIntervalMeter (F := F) h).
  assert (Hs : Sub now (nextHalvening a0) = int64.max).
  { cbn. unfold Sub, zero, int64.min, int64.max in *. lia. }
  pose proof (finishRound_fields a0) as (_ & Fh & FL & FN).
  assert (EN : Add (nextHalvening a0) (halflife a0) = h).
  { cbn. unfold zero. rewrite Add_exact; [lia|].
    unfold valid, minTime, maxTime, int64.min, int64.max, Second in *. lia. }
  destruct (Read_path a0 now)
    as [G|HL G|HL HN G|HL HN G|k HL HN Hlt Hq G|k HL HN Hlt Hq G]; times;
    try (exfalso; cbn in *; unfold zero in *; lia).
  - eexists. split; [reflexivity|].
    destruct (incrementRound_fields (finishRound a0) now) as (_ & _ & -> & ->).
    rewrite FN, EN. unfold int64.max in *. lia.
  - exfalso. rewrite Hs in *. cbn [halflife a0 NewIntervalMeter] in *.
    destruct (quo_pos int64.max h) as (Hq' & Hk & Hlo & Hhi);
      [unfold int64.max; lia|lia|].
    rewrite Hq' in Hq. injection Hq as <-.
    unfold maxSkippedIntervals in G. apply Hu. split; [lia|]. nia.
  - eexists. split; [reflexivity|].
    rewrite Hs in *. cbn [halflife a0 NewIntervalMeter] in *.
    destruct (quo_pos int64.max h) as (Hq' & Hk & Hlo & Hhi);
      [unfold int64.max; lia|lia|].
    rewrite Hq' in Hq. injection Hq as <-.
    destruct (incrementRound_fields (skipRounds (finishRound a0) (int64.max ÷ h)) now)
      as (_ & _ & -> & ->).
    destruct (skipRounds_fields (finishRound a0) (int64.max ÷ h))
      as (_ & _ & _ & ->).
    rewrite FN, EN, Fh. cbn [halflife a0 NewIntervalMeter].
    unfold int64.mul.
    rewrite wrap_in_range by (unfold int64.min, int64.max in *; nia).
    rewrite Add_exact;
      unfold valid, minTime, maxTime, int64.min, int64.max, Second in *; nia.
Qed.

End AnyArithmetic.

(** ** Exact arithmetic: bounds on [value] *)

Section Exact.

Implicit Types (a : intervalMeter Q) (now : Time) (c : call) (cs : list call).

Local Open Scope Q_scope.

Lemma inject_Z_pos (z : Z) : (0 < z)%Z -> 0 < inject_Z z.
Proof. intros Hz. change 0 with (inject_Z 0). rewrite <- Zlt_Qlt. exact Hz. Qed.

Lemma inject_Z_nonneg (z : Z) : (0 <= z)%Z -> 0 <= inject_Z z.
Proof. intros Hz. change 0 with (inject_Z 0). rewrite <- Zle_Qle. exact Hz. Qed.

(** Durations as fractions of a positive half-life [h]. *)
Lemma frac_nonneg (h d : Z) :
  (0 < h)%Z -> (0 <= d)%Z -> 0 <= inject_Z d / inject_Z h.
Proof.
  intros Hh Hd. apply Qle_shift_div_l; [apply inject_Z_pos, Hh|].
  rewrite Qmult_0_l. apply inject_Z_nonneg, Hd.
Qed.

Lemma frac_plus (h d e : Z) :
  (0 < h)%Z ->
  inject_Z (d + e) / inject_Z h == inject_Z d / inject_Z h + inject_Z e / inject_Z h.
Proof.
  intros Hh. rewrite inject_Z_plus. field.
  intros E. pose proof (inject_Z_pos h Hh) as P. rewrite E in P.
  apply (Qlt_irrefl 0 P).
Qed.

Lemma frac_one (h : Z) : (0 < h)%Z -> inject_Z h / inject_Z h == 1.
Proof.
  intros Hh. field.
  intros E. pose proof (inject_Z_pos h Hh) as P. rewrite E in P.
  apply (Qlt_irrefl 0 P).
Qed.

Lemma frac_le (h d e : Z) :
  (0 < h)%Z -> (d <= e)%Z -> inject_Z d / inject_Z h <= inject_Z e / inject_Z h.
Proof.
  intros Hh Hde. replace e with (d + (e - d))%Z by lia.
  rewrite (frac_plus h d (e - d) Hh).
  pose proof (frac_nonneg h (e - d) Hh ltac:(lia)). lra.
Qed.

(** [invFactor] is [2^k] for the [k] the closed form is used with. *)
Lemma invFactor_pow2 (k : Z) :
  (0 <= k <= maxSkippedIntervals)%Z ->
  int64.shl 1 (int64.to_uint k) = (2 ^ k)%Z.
Proof.
  unfold maxSkippedIntervals, int64.shl, int64.to_uint. intros Hk.
  rewrite Z.mod_small by lia.
  destruct (Z.leb_spec 64 k); [lia|].
  rewrite Z.shiftl_1_l. apply wrap_in_range.
  assert (2 ^ k <= 2 ^ 32)%Z by (apply Z.pow_le_mono_r; lia).
  assert (0 < 2 ^ k)%Z by (apply Z.pow_pos_nonneg; lia).
  unfold int64.min, int64.max. lia.
Qed.

(** [factor] lies in [(0, 1/2]] when at least one period is skipped. *)
Lemma factor_bounds (k : Z) :
  (1 <= k <= maxSkippedIntervals)%Z ->
  0 < 1 / inject_Z (int64.shl 1 (int64.to_uint k)) <= 1 # 2.
Proof.
  intros Hk. rewrite invFactor_pow2 by lia.
  assert (P : (2 <= 2 ^ k)%Z).
  { change 2%Z with (2 ^ 1)%Z at 1. apply Z.pow_le_mono_r; lia. }
  assert (P' : 2 <= inject_Z (2 ^ k)).
  { change 2 with (inject_Z 2). rewrite <- Zle_Qle. exact P. }
  split.
  - apply Qlt_shift_div_l; lra.
  - apply Qle_shift_div_r; lra.
Qed.

Ltac qconst :=
  change (inject_Z 2) with 2 in *;
  change (inject_Z 1) with 1 in *;
  change (inject_Z 0) with 0 in *.

(** [lra] reads no division: halve by multiplying. *)
Ltac halves := unfold Qdiv in *; change (/ 2) with (1 # 2) in *.

(** Every branch of [Read] but one keeps [value + remaining / 2] under a
    bound it was under (any bound from 1 on): the exception is the jump of
    lines 70-77 on a running meter, which sets [value] to 1 with a whole
    period still to come. *)
Lemma Read_within (bound : Q) a now a' v :
  usable (halflife a) -> inPeriod a ->
  (minTime <= nextHalvening a)%Z -> (now + halflife a <= maxTime)%Z ->
  1 <= bound -> within bound a ->
  Read a now = Some (a', v) ->
  within bound a' \/
  (running a = true /\ jumps a now = true /\ within (3 # 2) a').
Proof.
  intros [Hh Hmax] I Hmin Hend B [V0 V1].
  pose proof (Sub_in_range now (nextHalvening a)) as Hr.
  unfold jumps.
  destruct (Read_path a now)
    as [G|HL G|HL HN G|HL HN G|k HL HN Hlt Hq G|k HL HN Hlt Hq G];
    returned.
  - left. split; assumption.
  - left. times.
    destruct a as [r s h u N L]; unfold within, remaining, inPeriod in *.
    cbn [running started halflife value nextHalvening lastUpdated] in *.
    unfold maxSkippedIntervals, int64.max in Hmax.
    assert (E : Sub now L = (now - L)%Z)
      by (apply Sub_exact; unfold int64.min, int64.max; lia).
    pose proof (frac_plus h (now - L) (N - now) Hh) as P.
    replace (now - L + (N - now))%Z with (N - L)%Z in P by lia.
    pose proof (frac_nonneg h (now - L) Hh ltac:(lia)) as P1.
    pose proof (frac_nonneg h (N - now) Hh ltac:(lia)) as P2.
    destruct r; cbn; qconst; rewrite ?E;
      set (x := inject_Z (now - L) / inject_Z h) in *;
      set (y := inject_Z (N - now) / inject_Z h) in *;
      set (z := inject_Z (N - L) / inject_Z h) in *; clearbody x y z; halves; split; lra.
  - left. times.
    destruct a as [r s h u N L]; unfold within, remaining, inPeriod in *.
    cbn [running started halflife value nextHalvening lastUpdated] in *.
    unfold maxSkippedIntervals, int64.max in Hmax.
    assert (E1 : Sub N L = (N - L)%Z)
      by (apply Sub_exact; unfold int64.min, int64.max; lia).
    assert (E2 : Sub now N = (now - N)%Z)
      by (unfold Sub, int64.min, int64.max in *; lia).
    pose proof (frac_plus h (now - N) (N + h - now) Hh) as P.
    replace (now - N + (N + h - now))%Z with h in P by lia.
    rewrite (frac_one h Hh) in P.
    pose proof (frac_nonneg h (now - N) Hh ltac:(lia)) as P1.
    pose proof (frac_nonneg h (N + h - now) Hh ltac:(lia)) as P2.
    pose proof (frac_nonneg h (N - L) Hh ltac:(lia)) as P3.
    assert (EA : Add N h = (N + h)%Z) by (apply Add_exact; unfold valid; lia).
    destruct r; cbn; rewrite ?EA; qconst; rewrite ?E1, ?E2;
      set (x := inject_Z (now - N) / inject_Z h) in *;
      set (y := inject_Z (N + h - now) / inject_Z h) in *;
      set (z := inject_Z (N - L) / inject_Z h) in *; clearbody x y z;
      halves; split; lra.
  - assert (Hk : k = Z.quot (Sub now (nextHalvening a)) (halflife a)).
    { times. destruct (quo_pos (Sub now (nextHalvening a)) (halflife a))
        as (Hq' & _); [lia|lia|congruence]. }
    destruct a as [r s h u N L]; unfold within, remaining, inPeriod in *.
    cbn [running started halflife value nextHalvening lastUpdated] in *.
    pose proof (frac_one h Hh) as P.
    assert (EA : Add now h = (now + h)%Z).
    { apply Add_exact. unfold valid. apply Z.ltb_lt in HN. lia. }
    destruct r; cbn; rewrite ?EA; qconst;
      replace (now + h - now)%Z with h by lia;
      set (y := inject_Z h / inject_Z h) in *; clearbody y; halves.
    + right. repeat split; try lra.
      rewrite HL. cbn [andb]. apply andb_true_iff. split.
      * unfold After. apply Z.ltb_lt. apply Z.ltb_lt in HN. exact HN.
      * apply Z.ltb_lt. rewrite <- Hk. exact G.
    + left. split; lra.
  - left. times.
    destruct (quo_pos (Sub now (nextHalvening a)) (halflife a))
      as (Hq' & Hk & Hlo & Hhi); [lia|lia|].
    rewrite Hq' in Hq. injection Hq as <-.
    set (k := Z.quot (Sub now (nextHalvening a)) (halflife a)) in *.
    unfold maxSkippedIntervals in G, Hmax.
    assert (Hns : (Sub now (nextHalvening a) < int64.max)%Z) by nia.
    assert (Hex : Sub now (nextHalvening a) = (now - nextHalvening a)%Z).
    { clear - Hns HN. unfold Sub, int64.min, int64.max in *. lia. }
    rewrite Hex in Hlo, Hhi, Hlt. clearbody k.
    assert (Hk1 : (1 <= k)%Z) by nia.
    pose proof (factor_bounds k ltac:(unfold maxSkippedIntervals; lia)) as [F0 F1].
    destruct a as [r s h u N L]; unfold within, remaining, inPeriod in *.
    cbn [running started halflife value nextHalvening lastUpdated] in *.
    unfold int64.max in *.
    assert (Em : int64.mul h k = (h * k)%Z).
    { unfold int64.mul. apply wrap_in_range. unfold int64.min, int64.max. nia. }
    assert (E1 : Sub N L = (N - L)%Z)
      by (apply Sub_exact; unfold int64.min, int64.max; lia).
    assert (E2 : Sub now (N + h * k)%Z = (now - (N + h * k))%Z)
      by (apply Sub_exact; unfold int64.min, int64.max; nia).
    pose proof (frac_plus h (now - (N + h * k)) (N + h + h * k - now) Hh) as P.
    replace (now - (N + h * k) + (N + h + h * k - now))%Z with h in P by lia.
    rewrite (frac_one h Hh) in P.
    pose proof (frac_nonneg h (now - (N + h * k)) Hh ltac:(nia)) as P1.
    pose proof (frac_nonneg h (N + h + h * k - now) Hh ltac:(nia)) as P2.
    pose proof (frac_nonneg h (N - L) Hh ltac:(lia)) as P3.
    assert (EA1 : Add N h = (N + h)%Z) by (apply Add_exact; unfold valid; lia).
    assert (EA2 : Add N (h * k)%Z = (N + h * k)%Z)
      by (apply Add_exact; unfold valid; nia).
    assert (EA3 : Add (N + h)%Z (h * k)%Z = (N + h + h * k)%Z)
      by (apply Add_exact; unfold valid; nia).
    destruct r; cbn; rewrite ?Em, ?EA1, ?EA2, ?EA3; qconst; rewrite ?E1, ?E2;
      set (x := inject_Z (now - (N + h * k)) / inject_Z h) in *;
      set (y := inject_Z (N + h + h * k - now) / inject_Z h) in *;
      set (z := inject_Z (N - L) / inject_Z h) in *;
      set (f := 1 / inject_Z (int64.shl 1 (int64.to_uint k))) in *;
      clearbody x y z f; halves.
    + assert (A1 : 0 <= (u + z * (1 # 2)) * f) by (apply Qmult_le_0_compat; lra).
      assert (A2 : 0 <= (bound - (u + z * (1 # 2))) * f)
        by (apply Qmult_le_0_compat; lra).
      assert (A3 : 0 <= (bound - 1) * (1 - f)) by (apply Qmult_le_0_compat; lra).
      split; lra.
    + assert (A1 : 0 <= u * f) by (apply Qmult_le_0_compat; lra).
      assert (A2 : 0 <= u * (1 - f)) by (apply Qmult_le_0_compat; lra).
      split; lra.
Qed.

(** The same call without rounding. A running meter whose [lastUpdated]
    is [t] and whose [value] is [v], read next at [t + halflife], returns
    [(v + 1) / 2] less a quarter of what was left of the period at [t]:
    exactly [(v + 1) / 2] when [t] is the pending boundary
    [nextHalvening]; and it returns [v + 1/2] when the boundary is
    [t + halflife] itself, which the call does not cross. *)
Lemma Read_one_halflife_later_exact a :
  (0 < halflife a <= int64.max)%Z -> inPeriod a -> running a = true ->
  exists a',
    Read a (lastUpdated a + halflife a)%Z = Some (a', value a') /\
    ((nextHalvening a < lastUpdated a + halflife a)%Z ->
       value a' == (value a + 1) / 2 - remaining a / 4) /\
    (nextHalvening a = lastUpdated a ->
       value a' == (value a + 1) / 2) /\
    (nextHalvening a = (lastUpdated a + halflife a)%Z ->
       value a' == value a + (1 # 2)).
Proof.
  intros [Hh Hmax] I R. unfold int64.max in Hmax.
  destruct (Read_path a (lastUpdated a + halflife a)%Z)
    as [G|HL G|HL HN G|HL HN G|k HL HN Hlt Hq G|k HL HN Hlt Hq G]; times;
    try (exfalso; unfold inPeriod, Sub, int64.min, int64.max in *; lia).
  - eexists. split; [reflexivity|].
    destruct a as [r s h u N L]; unfold remaining, inPeriod in *.
    cbn [running started halflife value nextHalvening lastUpdated] in *.
    subst r.
    assert (E : Sub (L + h)%Z L = h)
      by (unfold Sub, int64.min, int64.max; lia).
    pose proof (frac_one h Hh) as P.
    cbn; qconst; rewrite E.
    set (x := inject_Z h / inject_Z h) in *. clearbody x.
    repeat split; intros; try lia; halves; lra.
  - eexists. split; [reflexivity|].
    destruct a as [r s h u N L]; unfold remaining, inPeriod in *.
    cbn [running started halflife value nextHalvening lastUpdated] in *.
    subst r.
    assert (E1 : Sub N L = (N - L)%Z)
      by (unfold Sub, int64.min, int64.max; lia).
    assert (E2 : Sub (L + h)%Z N = (L + h - N)%Z)
      by (unfold Sub, int64.min, int64.max; lia).
    pose proof (frac_plus h (N - L) (L + h - N) Hh) as P.
    replace (N - L + (L + h - N))%Z with h in P by lia.
    rewrite (frac_one h Hh) in P.
    cbn; unfold Add; qconst; rewrite E1, E2.
    set (x := inject_Z (N - L) / inject_Z h) in *.
    set (y := inject_Z (L + h - N) / inject_Z h) in *.
    assert (Z0 : N = L -> x == 0).
    { intros ->. unfold x. rewrite Z.sub_diag. apply Qmult_0_l. }
    clearbody x y.
    repeat split; intros; try lia; halves;
      change (/ 4) with (1 # 4); try (rewrite Z0 in * by assumption); lra.
Qed.

(** *** The closed form of lines 80-89 against rounds finished one by one *)

Lemma pow2_pos (k : Z) : (0 <= k)%Z -> 0 < inject_Z (2 ^ k).
Proof. intros Hk. apply inject_Z_pos. apply Z.pow_pos_nonneg; lia. Qed.

Lemma pow2_succ (k : Z) :
  (0 <= k)%Z -> inject_Z (2 ^ (k + 1)) == 2 * inject_Z (2 ^ k).
Proof.
  intros Hk. rewrite Z.pow_add_r by lia. rewrite inject_Z_mult.
  change (inject_Z (2 ^ 1)) with 2. ring.
Qed.

(** [n] rounds finished one by one, from the start of a round: the
    timestamps move by [n] half-lives, the old [value] is halved [n] times,
    and a running meter gains [(1 - 1/2^n) / 2]. *)
Lemma finishRounds_exact a (n : nat) :
  (0 < halflife a <= int64.max)%Z ->
  nextHalvening a = (lastUpdated a + halflife a)%Z ->
  (minTime <= nextHalvening a)%Z ->
  (nextHalvening a + halflife a * Z.of_nat n <= maxTime)%Z ->
  running (finishRounds n a) = running a /\
  halflife (finishRounds n a) = halflife a /\
  lastUpdated (finishRounds n a) = (lastUpdated a + halflife a * Z.of_nat n)%Z /\
  nextHalvening (finishRounds n a) = (nextHalvening a + halflife a * Z.of_nat n)%Z /\
  value (finishRounds n a) * inject_Z (2 ^ Z.of_nat n) ==
    value a + (if running a then (inject_Z (2 ^ Z.of_nat n) - 1) / 2 else 0).
Proof.
  intros Hh HN Hmin. induction n as [|n IH]; intros Hend.
  - change (finishRounds 0 a) with a. cbn [Z.of_nat].
    rewrite !Z.mul_0_r, !Z.add_0_r. repeat split.
    change (inject_Z (2 ^ 0)) with 1. destruct (running a); halves; lra.
  - destruct IH as (IHr & IHh & IHL & IHN & IHv); [nia|].
    change (finishRounds (S n) a) with (finishRound (finishRounds n a)).
    set (b := finishRounds n a) in *.
    destruct (finishRound_fields b) as (-> & -> & -> & ->).
    rewrite IHN, IHh, Add_exact by (unfold valid; nia).
    repeat split; try congruence; try lia.
    replace (Z.of_nat (S n)) with (Z.of_nat n + 1)%Z by lia.
    pose proof (pow2_succ (Z.of_nat n) ltac:(lia)) as S2.
    assert (E : Sub (nextHalvening b) (lastUpdated b) = halflife b).
    { rewrite IHL, IHN, IHh, HN. unfold Sub, int64.min, int64.max in *. lia. }
    pose proof (frac_one (halflife b) ltac:(lia)) as O.
    unfold finishRound. rewrite IHr in *.
    destruct (running a); cbn; qconst; rewrite ?E, S2;
      set (P := inject_Z (2 ^ Z.of_nat n)) in *;
      set (x := inject_Z (halflife b) / inject_Z (halflife b)) in *;
      clearbody x P; halves; rewrite ?O; lra.
Qed.

(** The closed form: the timestamps move by [k] half-lives, a running
    meter gains the same, and the old [value] is halved [k + 1] times. *)
Lemma skipRounds_exact a (k : Z) :
  (0 <= k <= maxSkippedIntervals)%Z ->
  value (skipRounds a k) * inject_Z (2 ^ (k + 1)) ==
    value a + (if running a then inject_Z (2 ^ k) - 1 else 0).
Proof.
  intros Hk. pose proof (pow2_succ k ltac:(lia)) as S2.
  pose proof (pow2_pos k ltac:(lia)) as P0.
  unfold skipRounds. rewrite invFactor_pow2 by exact Hk.
  destruct a as [r s h u N L]. destruct r; cbn; qconst; rewrite S2;
    set (P := inject_Z (2 ^ k)) in *; clearbody P; field; lra.
Qed.

(** C3, what the code does. From the start of a round, and with the [k]
    rounds ahead within what a [Time] can hold, lines 80-89 with
    [1 <= k <= 32] leave the timestamps where [k] rounds finished one by
    one leave them, but a smaller [value]: smaller by the old [value]
    divided by [2^(k+1)], since the old [value] is halved [k + 1] times
    instead of [k] times.  The two agree on the [value] only when it was 0. *)
Theorem skipRounds_halves_once_more a (k : Z) :
  usable (halflife a) ->
  nextHalvening a = (lastUpdated a + halflife a)%Z ->
  (1 <= k <= maxSkippedIntervals)%Z ->
  (minTime <= nextHalvening a)%Z ->
  (nextHalvening a + k * halflife a <= maxTime)%Z ->
  lastUpdated (skipRounds a k) = lastUpdated (finishRounds (Z.to_nat k) a) /\
  nextHalvening (skipRounds a k) = nextHalvening (finishRounds (Z.to_nat k) a) /\
  value (finishRounds (Z.to_nat k) a) ==
    value (skipRounds a k) + value a / inject_Z (2 ^ (k + 1)).
Proof.
  intros [Hh Hmax] HN Hk Hmin Hend. unfold maxSkippedIntervals in *.
  assert (Hh' : (0 < halflife a <= int64.max)%Z) by lia.
  destruct (finishRounds_exact a (Z.to_nat k) Hh' HN Hmin)
    as (_ & _ & -> & -> & Vf); [rewrite Z2Nat.id by lia; lia|].
  destruct (skipRounds_fields a k) as (_ & _ & -> & ->).
  pose proof (skipRounds_exact a k ltac:(unfold maxSkippedIntervals; lia)) as Vs.
  rewrite Z2Nat.id in * by lia.
  assert (Em : int64.mul (halflife a) k = (halflife a * k)%Z).
  { unfold int64.mul. apply wrap_in_range. unfold int64.min, int64.max in *. nia. }
  rewrite Em, !Add_exact by (unfold valid; nia). repeat split.
  pose proof (pow2_succ k ltac:(lia)) as S2.
  pose proof (pow2_pos k ltac:(lia)) as P0.
  rewrite S2 in *. set (P := inject_Z (2 ^ k)) in *. clearbody P.
  set (vf := value (finishRounds (Z.to_nat k) a)) in *.
  set (vs := value (skipRounds a k)) in *. clearbody vf vs.
  apply (Qmult_inj_r _ _ (2 * P)); [lra|].
  assert (R : (vs + value a / (2 * P)) * (2 * P) == vs * (2 * P) + value a)
    by (field; lra).
  rewrite R, Vs. destruct (running a); halves; lra.
Qed.

End Exact.

(** ** One half-life later: the value as computed, and without rounding *)

(** C4, as the code has it. A running meter whose [lastUpdated] is [t]
    and whose [value] is [v] is read next at [t + halflife]; [r] is the
    time that was left of the period at [t] and [h] the half-life.  In any
    arithmetic, binary64 included, the call returns
    [(v + r/h/2)/2 + (h - r)/h/2] when it crosses [nextHalvening], and
    [v + h/h/2] when [nextHalvening] is [t + halflife] itself.  Without
    rounding the first is [(v + 1)/2 - r/(4 h)], which is [(v + 1)/2] only
    when [t] is the pending boundary, and the second is [v + 1/2]. *)
Theorem Read_one_halflife_later :
  (forall (F : Type) (Fl : Float64 F) (a : intervalMeter F),
     0 < halflife a <= int64.max -> inPeriod a -> running a = true ->
     exists a',
       Read a (lastUpdated a + halflife a) = Some (a', value a') /\
       (nextHalvening a < lastUpdated a + halflife a ->
        value a' =
          ((value a
            + of_int (nextHalvening a - lastUpdated a) / of_int (halflife a)
              / of_int 2) / of_int 2
           + of_int (lastUpdated a + halflife a - nextHalvening a)
             / of_int (halflife a) / of_int 2)%f64) /\
       (nextHalvening a = lastUpdated a + halflife a ->
        value a' =
          (value a + of_int (halflife a) / of_int (halflife a) / of_int 2)%f64)) /\
  (forall a : intervalMeter Q,
     0 < halflife a <= int64.max -> inPeriod a -> running a = true ->
     exists a',
       Read a (lastUpdated a + halflife a) = Some (a', value a') /\
       (nextHalvening a < lastUpdated a + halflife a ->
          (value a' == (value a + 1) / 2 - remaining a / 4)%Q) /\
       (nextHalvening a = lastUpdated a ->
          (value a' == (value a + 1) / 2)%Q) /\
       (nextHalvening a = lastUpdated a + halflife a ->
          (value a' == value a + (1 # 2))%Q)).
Proof.
  split.
  - intros F Fl a Hh I R. exact (Read_one_halflife_later_value a Hh I R).
  - intros a Hh I R. exact (Read_one_halflife_later_exact a Hh I R).
Qed.

(** ** IEEE 754 double precision: the code as it runs *)

Section Binary64.

Implicit Types (a : intervalMeter float) (now : Time) (c : call) (cs : list call).

(** Zero stays zero when halved, and when scaled by [factor]. *)
Lemma zero_halved : (0%float / of_int 2)%f64 = 0%float.
Proof. reflexivity. Qed.

Lemma zero_times_factor (k : Z) :
  1 <= k <= maxSkippedIntervals ->
  (0%float * (of_int 1 / of_int (int64.shl 1 (int64.to_uint k))))%f64 = 0%float.
Proof.
  unfold maxSkippedIntervals. intros Hk.
  assert (K : In k (map Z.of_nat (seq 1 32))).
  { apply in_map_iff. exists (Z.to_nat k). split; [lia|apply in_seq; lia]. }
  cbn in K.
  repeat (destruct K as [<-|K]; [vm_compute; reflexivity|]).
  contradiction.
Qed.

Lemma Read_never_started a now :
  0 < halflife a -> running a = false -> value a = 0%float ->
  exists a',
    Read a now = Some (a', 0%float) /\
    halflife a' = halflife a /\ running a' = false /\ value a' = 0%float.
Proof.
  intros Hh R V.
  pose proof (Sub_in_range now (nextHalvening a)) as Hr.
  pose proof (finishRound_fields a) as (Fr & Fh & _).
  rewrite R in Fr.
  pose proof (finishRound_stopped a R) as Fv.
  rewrite V, zero_halved in Fv.
  destruct (Read_path a now)
    as [G|HL G|HL HN G|HL HN G|k HL HN Hlt Hq G|k HL HN Hlt Hq G].
  - exists a. rewrite V. auto.
  - destruct (incrementRound_fields a now) as (Ir & Ih & _).
    exists (incrementRound a now).
    rewrite (incrementRound_stopped a now R), V, Ir, Ih. auto.
  - destruct (incrementRound_fields (finishRound a) now) as (Ir & Ih & _).
    exists (incrementRound (finishRound a) now).
    rewrite (incrementRound_stopped _ now Fr), Fv, Ir, Ih. auto.
  - lia.
  - destruct (jump_fields (finishRound a) now) as (Jr & Jh & _).
    exists (jump (finishRound a) now).
    rewrite (jump_stopped _ now Fr), Jr, Jh. auto.
  - times.
    destruct (quo_pos (Sub now (nextHalvening a)) (halflife a))
      as (Hq' & Hk & Hlo & Hhi); [lia|lia|].
    rewrite Hq' in Hq. injection Hq as <-.
    set (k := Z.quot (Sub now (nextHalvening a)) (halflife a)) in *.
    assert (Hk1 : 1 <= k) by nia.
    pose proof (zero_times_factor k ltac:(lia)) as Zf.
    destruct (skipRounds_fields (finishRound a) k) as (Sr & Sh & _).
    rewrite Fr in Sr.
    destruct (incrementRound_fields (skipRounds (finishRound a) k) now)
      as (Ir & Ih & _).
    exists (incrementRound (skipRounds (finishRound a) k) now).
    rewrite (incrementRound_stopped _ now Sr).
    rewrite (skipRounds_stopped _ k Fr), Fv, Zf, zero_halved.
    rewrite Ir, Ih, Sr, Sh. auto.
Qed.

Lemma run_never_started a cs :
  0 < halflife a -> running a = false -> value a = 0%float ->
  noStart cs = true ->
  exists a',
    run a cs = Some a' /\
    halflife a' = halflife a /\ running a' = false /\ value a' = 0%float.
Proof.
  revert a. induction cs as [|c cs IH]; intros a Hh R V NS; cbn [run].
  - exists a. auto.
  - cbn [noStart forallb] in NS. apply andb_true_iff in NS as [Hc NS].
    assert (E : exists b, exec a c = Some b /\ halflife b = halflife a /\
                          running b = false /\ value b = 0%float).
    { destruct c as [t|t|t]; [discriminate| |].
      - exists a. cbn [exec]. unfold Stop. rewrite R. auto.
      - destruct (Read_never_started a t Hh R V) as (b & Eb & Fb).
        exists b. cbn [exec]. rewrite Eb. auto. }
    destruct E as (b & -> & Bh & Br & Bv).
    destruct (IH b) as (a' & Ra & Ah & Ar & Av); [lia|assumption..|].
    exists a'. rewrite Ra, Ah. auto.
Qed.

(** C9. On a new meter with a positive half-life, after any sequence of
    [Stop] and [Read] calls, [Read] returns exactly [0] at every [now]. *)
Theorem never_started_reads_zero (h : Duration) cs now :
  0 < h -> noStart cs = true ->
  exists a a' : intervalMeter float,
    run (NewIntervalMeter h) cs = Some a /\
    running a = false /\
    Read a now = Some (a', 0%float).
Proof.
  intros Hh NS.
  destruct (run_never_started (NewIntervalMeter h) cs) as (a & Ra & Ah & Ar & Av);
    [exact Hh|reflexivity|reflexivity|exact NS|].
  destruct (Read_never_started a now) as (a' & Ea & _);
    [rewrite Ah; exact Hh|exact Ar|exact Av|].
  exists a, a'. auto.
Qed.

End Binary64.

(** ** The scenario of the specification, and where the code departs *)

(** Run a scenario call by call: each conjunct is computed once the
    meters it mentions are known. *)
Ltac scenario :=
  cbv zeta;
  repeat lazymatch goal with
    | |- exists _, _ => eexists
    | |- _ /\ _ => split
    | |- _ = _ => lazy; reflexivity
    end.

(** C5. A new meter with a half-life of one second, started at the zero
    time: [Read] one second later returns 0.5 while the meter still runs;
    after [Stop] at that time, [Read] at two seconds returns 0.25. *)
Theorem one_second_scenario :
  let a0 : intervalMeter float := NewIntervalMeter Second in
  exists a1 a2 a3 a4 : intervalMeter float,
    Start a0 zero = Some a1 /\
    Read a1 (Add zero Second) = Some (a2, 0.5%float) /\
    running a2 = true /\
    Stop a2 (Add zero Second) = Some a3 /\
    Read a3 (Add zero (2 * Second)) = Some (a4, 0.25%float).
Proof. scenario. Qed.

(** The same from a wall-clock start (2020-09-13 12:26:40 UTC as
    nanoseconds since the zero time). *)
Example wall_clock_scenario :
  let t0 : Time := (62135596800 + 1600000000) * Second in
  let a0 : intervalMeter float := NewIntervalMeter Second in
  exists a1 a2 a3 a4 : intervalMeter float,
    Start a0 t0 = Some a1 /\
    Read a1 (Add t0 Second) = Some (a2, 0.5%float) /\
    Stop a2 (Add t0 Second) = Some a3 /\
    Read a3 (Add t0 (2 * Second)) = Some (a4, 0.25%float).
Proof. scenario. Qed.

(** C1, at the failing input. A meter with a half-life of one second is
    started, read 100 seconds later (the jump of lines 70-77 sets [value]
    to 1) and read again one second after that, still running: the second
    [Read] returns 1.5, in binary64 and in exact arithmetic alike.  The
    [now] arguments increase. *)
Lemma value_above_one :
  let cs := [CallStart (1000 * Second); CallRead (1100 * Second)] in
  (exists a a' : intervalMeter float,
     run (NewIntervalMeter Second) cs = Some a /\
     Read a (1101 * Second) = Some (a', 1.5%float) /\
     PrimFloat.leb 1.5 1 = false) /\
  (exists (a a' : intervalMeter Q) (v : Q),
     run (NewIntervalMeter Second) cs = Some a /\
     Read a (1101 * Second) = Some (a', v) /\
     (v == 3 # 2)%Q /\ ~ (v <= 1)%Q).
Proof.
  scenario.
  - reflexivity.
  - intros Hle. apply Hle. reflexivity.
Qed.

(** C7 fails. [nextHalvening] is not after [lastUpdated] in a new meter
    (both are the zero time), nor after a [Read] at [nextHalvening]. *)
Lemma nextHalvening_not_after_lastUpdated :
  let a0 : intervalMeter float := NewIntervalMeter Second in
  (nextHalvening a0 = lastUpdated a0 /\
   After (nextHalvening a0) (lastUpdated a0) = false) /\
  (exists a : intervalMeter float,
     run a0 [CallStart zero; CallRead (Add zero Second)] = Some a /\
     nextHalvening a = lastUpdated a /\
     After (nextHalvening a) (lastUpdated a) = false).
Proof. scenario. Qed.

(** C4 fails. A meter with a half-life of two seconds, started at one
    second, is running with [value = 0] and [lastUpdated = 1s]; read one
    half-life later it returns 0.375 and not [(0 + 1) / 2 = 0.5]. *)
Lemma one_halflife_later_falls_short :
  let h : Duration := 2 * Second in
  exists a a' : intervalMeter float,
    Start (NewIntervalMeter h) Second = Some a /\
    running a = true /\ lastUpdated a = Second /\ value a = 0%float /\
    Read a (Add (lastUpdated a) h) = Some (a', 0.375%float) /\
    ((value a + 1) / 2)%float = 0.5%float /\
    PrimFloat.eqb 0.375 0.5 = false.
Proof. scenario. Qed.

(** C3 at a concrete state. A stopped meter with a half-life of one second
    and [value = 0.25] at the start of the round [[1s, 2s]]: lines 80-89
    with three skipped periods give [value = 1/64], three rounds finished
    one by one give [1/32]; the timestamps agree. *)
Example skipRounds_three_periods :
  let a : intervalMeter float :=
    {| running := false; started := zero; halflife := Second;
       value := 0.25%float;
       nextHalvening := 2 * Second; lastUpdated := Second |} in
  value (skipRounds a 3) = 0.015625%float /\
  value (finishRounds 3 a) = 0.03125%float /\
  lastUpdated (skipRounds a 3) = lastUpdated (finishRounds 3 a) /\
  nextHalvening (skipRounds a 3) = nextHalvening (finishRounds 3 a).
Proof. scenario. Qed.

(** The same seen through [Read]: a meter that ran for its first second
    and was then stopped is read at 4.5 s.  With reads at 2 s, 3 s and 4 s
    in between the result is [1/32]; without them it is [1/64]. *)
Example Read_depends_on_earlier_reads :
  let cs := [CallStart zero; CallRead Second; CallStop Second] in
  let t : Time := 4500000000 in
  exists a b a' b' : intervalMeter float,
    run (NewIntervalMeter Second) cs = Some a /\
    Read a t = Some (a', 0.015625%float) /\
    run a [CallRead (2 * Second); CallRead (3 * Second); CallRead (4 * Second)]
      = Some b /\
    Read b t = Some (b', 0.03125%float).
Proof. scenario. Qed.

(** Without any jump, rounding alone takes [value] past 1 in binary64: a
    meter started at the zero time and read at each of the next 54
    seconds holds exactly 1; ten more reads, a tenth of a second apart,
    leave [1 + 2^-51]. *)
Example rounding_above_one :
  let cs :=
    CallStart zero
    :: map (fun n => CallRead (Z.of_nat n * Second)) (seq 1 54)
    ++ map (fun n => CallRead (54 * Second + Z.of_nat n * 100000000))
         (seq 1 10) in
  exists a : intervalMeter float,
    run (NewIntervalMeter Second) cs = Some a /\
    value a = 0x1.0000000000002p+0%float /\
    PrimFloat.ltb 1 (value a) = true.
Proof. scenario. Qed.

(** C9 fails without a positive half-life. A new meter with a zero
    half-life panics at its first [Read] after the zero time, and one with
    a negative half-life returns a NaN: neither returns 0. *)
Lemma never_started_needs_positive_halflife :
  Read (NewIntervalMeter (F := float) 0) Second = None /\
  exists a : intervalMeter float,
    Read (NewIntervalMeter (- Second)) (10 * Second) = Some (a, nan) /\
    PrimFloat.eqb nan 0 = false.
Proof. scenario. Qed.

(** Why the calls must come before the end of what a [Time] can hold: at
    the start of the last second, [Add] cannot move [nextHalvening] on,
    and half a second later it is before [lastUpdated]. *)
Example last_second_leaves_period :
  let T : Time := int64.max * Second in
  exists a b : intervalMeter float,
    run (NewIntervalMeter Second) [CallStart zero; CallRead T] = Some a /\
    nextHalvening a = T /\ lastUpdated a = T /\
    Read a (T + 500000000) = Some (b, 0.75%float) /\
    nextHalvening b = T /\ lastUpdated b = T + 500000000.
Proof. scenario. Qed.

(** Why [usable] bounds the half-life: with a half-life of a hundred years,
    the first [Read] at a wall-clock time leaves [nextHalvening] centuries
    before [lastUpdated], since [Time.Sub] saturates at about 292 years. *)
Example long_halflife_leaves_period :
  let year : Duration := 31557600 * Second in
  exists a : intervalMeter float,
    run (NewIntervalMeter (100 * year)) [CallRead (2020 * year)] = Some a /\
    nextHalvening a = 300 * year /\ lastUpdated a = 2020 * year.
Proof. scenario. Qed.

(** Why the half-life must be positive: with a zero half-life the first
    [Read] after the zero time panics, and with a negative one it returns a
    NaN even on a meter that never ran. *)
Example zero_halflife_panics :
  Read (NewIntervalMeter (F := float) 0) Second = None.
Proof. reflexivity. Qed.

Example negative_halflife_reads_nan :
  exists a : intervalMeter float,
    Read (NewIntervalMeter (- Second)) (10 * Second) = Some (a, nan).
Proof. scenario. Qed.


(** ** The theorems at concrete meters *)

Lemma usable_Second : usable Second.
Proof. unfold usable, maxSkippedIntervals, Second, int64.max. lia. Qed.

(** [Read_monotonic_guard] on a meter last updated at 7 s and read at 5 s,
    and on a [Read] at 9 s repeated. *)
Lemma Read_monotonic_guard_witness :
  let a : intervalMeter float :=
    {| running := true; started := zero; halflife := Second;
       value := 0.5%float;
       nextHalvening := 7 * Second; lastUpdated := 7 * Second |} in
  (After (5 * Second) (lastUpdated a) = false ->
   Read a (5 * Second) = Some (a, value a)) /\
  (forall a' v, Read a (9 * Second) = Some (a', v) ->
                Read a' (9 * Second) = Some (a', v)).
Proof.
  intros a. split.
  - exact (proj1 (Read_monotonic_guard a (5 * Second))).
  - exact (proj2 (Read_monotonic_guard a (9 * Second))).
Defined.


(** [lastUpdated_never_decreases] on calls whose times go back and forth. *)
Lemma lastUpdated_never_decreases_witness :
  let a : intervalMeter float := NewIntervalMeter Second in
  let cs := [CallStart (5 * Second); CallRead (3 * Second);
             CallStop (9 * Second); CallRead Second] in
  halflife a <> 0 /\
  exists a', run a cs = Some a' /\ lastUpdated a <= lastUpdated a'.
Proof.
  intros a cs. split; [discriminate|].
  apply (lastUpdated_never_decreases a cs). discriminate.
Defined.

(** [nextHalvening_not_before_lastUpdated] on the scenario of the
    specification. *)
Lemma nextHalvening_not_before_lastUpdated_witness :
  let cs := [CallStart zero; CallRead Second; CallStop Second;
             CallRead (2 * Second)] in
  (usable Second /\ beforeEnd Second cs = true) /\
  exists a : intervalMeter float,
    run (NewIntervalMeter Second) cs = Some a /\
    lastUpdated a <= nextHalvening a <= lastUpdated a + Second /\
    nextHalvening (NewIntervalMeter (F := float) Second)
      = lastUpdated (NewIntervalMeter (F := float) Second) /\
    (exists a',
       Read a (nextHalvening a) = Some (a', value a') /\
       nextHalvening a' = lastUpdated a').
Proof.
  intros cs. split; [split; [exact usable_Second|reflexivity]|].
  apply (nextHalvening_not_before_lastUpdated Second cs usable_Second).
  reflexivity.
Defined.

(** [Read_one_halflife_later] on a running meter with a half-life of two
    seconds, last updated at one second: in binary64 and without
    rounding. *)
Lemma Read_one_halflife_later_witness :
  let a : intervalMeter float :=
    {| running := true; started := zero; halflife := 2 * Second;
       value := 0%float;
       nextHalvening := 2 * Second; lastUpdated := Second |} in
  let b : intervalMeter Q :=
    {| running := true; started := zero; halflife := 2 * Second;
       value := 0%Q;
       nextHalvening := 2 * Second; lastUpdated := Second |} in
  (0 < halflife a <= int64.max /\ inPeriod a /\ running a = true) /\
  (0 < halflife b <= int64.max /\ inPeriod b /\ running b = true) /\
  (exists a',
     Read a (lastUpdated a + halflife a) = Some (a', value a') /\
     (nextHalvening a < lastUpdated a + halflife a ->
      value a' =
        ((value a
          + of_int (nextHalvening a - lastUpdated a) / of_int (halflife a)
            / of_int 2) / of_int 2
         + of_int (lastUpdated a + halflife a - nextHalvening a)
           / of_int (halflife a) / of_int 2)%f64) /\
     (nextHalvening a = lastUpdated a + halflife a ->
      value a' =
        (value a + of_int (halflife a) / of_int (halflife a) / of_int 2)%f64)) /\
  (exists b',
     Read b (lastUpdated b + halflife b) = Some (b', value b') /\
     (nextHalvening b < lastUpdated b + halflife b ->
        (value b' == (value b + 1) / 2 - remaining b / 4)%Q) /\
     (nextHalvening b = lastUpdated b ->
        (value b' == (value b + 1) / 2)%Q) /\
     (nextHalvening b = lastUpdated b + halflife b ->
        (value b' == value b + (1 # 2))%Q)).
Proof.
  intros a b.
  assert (Ua : 0 < halflife a <= int64.max)
    by (unfold int64.max, a, Second; cbn; lia).
  assert (Ia : inPeriod a) by (unfold inPeriod, a, Second; cbn; lia).
  assert (Ub : 0 < halflife b <= int64.max)
    by (unfold int64.max, b, Second; cbn; lia).
  assert (Ib : inPeriod b) by (unfold inPeriod, b, Second; cbn; lia).
  split; [exact (conj Ua (conj Ia eq_refl))|].
  split; [exact (conj Ub (conj Ib eq_refl))|].
  split.
  - exact (proj1 Read_one_halflife_later float binary64 a Ua Ia eq_refl).
  - exact (proj2 Read_one_halflife_later b Ub Ib eq_refl).
Defined.

(** [never_started_reads_zero] after a [Read], a [Stop] and a [Read]. *)
Lemma never_started_reads_zero_witness :
  let cs := [CallRead (5 * Second); CallStop (6 * Second);
             CallRead (100 * Second)] in
  (0 < Second /\ noStart cs = true) /\
  exists a a' : intervalMeter float,
    run (NewIntervalMeter Second) cs = Some a /\
    running a = false /\
    Read a (1000 * Second) = Some (a', 0%float).
Proof.
  intros cs. split; [split; reflexivity|].
  apply (never_started_reads_zero Second cs (1000 * Second)); reflexivity.
Defined.

(** [skipRounds_halves_once_more] at the state of
    [skipRounds_three_periods]. *)
Lemma skipRounds_halves_once_more_witness :
  let a : intervalMeter Q :=
    {| running := false; started := zero; halflife := Second;
       value := (1 # 4)%Q;
       nextHalvening := 2 * Second; lastUpdated := Second |} in
  (usable (halflife a) /\
   nextHalvening a = lastUpdated a + halflife a /\
   1 <= 3 <= maxSkippedIntervals /\
   minTime <= nextHalvening a /\
   nextHalvening a + 3 * halflife a <= maxTime) /\
  lastUpdated (skipRounds a 3) = lastUpdated (finishRounds (Z.to_nat 3) a) /\
  nextHalvening (skipRounds a 3) = nextHalvening (finishRounds (Z.to_nat 3) a) /\
  (value (finishRounds (Z.to_nat 3) a) ==
     value (skipRounds a 3) + value a / inject_Z (2 ^ (3 + 1)))%Q.
Proof.
  intros a.
  assert (K : 1 <= 3 <= maxSkippedIntervals)
    by (unfold maxSkippedIntervals; lia).
  assert (Hmin : minTime <= nextHalvening a)
    by (unfold minTime, int64.min, a, Second; cbn; lia).
  assert (Hend : nextHalvening a + 3 * halflife a <= maxTime)
    by (unfold maxTime, int64.max, a, Second; cbn; lia).
  split; [exact (conj usable_Second (conj eq_refl (conj K (conj Hmin Hend))))|].
  apply (skipRounds_halves_once_more a 3 usable_Second eq_refl K Hmin Hend).
Defined.

(** * Further properties of the meter *)

(** ** Whatever the arithmetic on [value] is *)

Section MoreAnyArithmetic.

Context {F : Type} `{Float64 F}.
Implicit Types (a : intervalMeter F) (now : Time) (c : call) (cs : list call).

(** X1. [Read] panics exactly when the half-life is zero and [now] is
    after both [lastUpdated] and [nextHalvening]: the division of line 65
    is then reached with a zero divisor. *)
Theorem Read_panics_iff a now :
  Read a now = None <->
  halflife a = 0 /\
  After now (lastUpdated a) = true /\ After now (nextHalvening a) = true.
Proof.
  split.
  - destruct (Read_path a now); intros E; try discriminate. auto.
  - intros (Hh & HL & HN).
    pose proof (Sub_pos now (nextHalvening a)) as Hs.
    destruct (Read_path a now)
      as [G|HL' G|HL' HN' G|HL' HN' G|k HL' HN' Hlt Hq G|k HL' HN' Hlt Hq G];
      try reflexivity; try congruence; exfalso.
    + times. lia.
    + rewrite Hh in Hq. discriminate.
    + rewrite Hh in Hq. discriminate.
Qed.

(** *** What no call writes *)

Lemma finishRound_started a : started (finishRound a) = started a.
Proof. unfold finishRound. destruct (running a); reflexivity. Qed.

Lemma jump_started a now : started (jump a now) = started a.
Proof. unfold jump. destruct (running a); reflexivity. Qed.

Lemma skipRounds_started a k : started (skipRounds a k) = started a.
Proof.
  destruct a as [r s h u N L]. unfold skipRounds. destruct r; reflexivity.
Qed.

Lemma incrementRound_started a now : started (incrementRound a now) = started a.
Proof. unfold incrementRound. destruct (running a); reflexivity. Qed.

Lemma Read_started a now a' v :
  Read a now = Some (a', v) -> started a' = started a.
Proof.
  destruct (Read_path a now); returned;
    rewrite ?incrementRound_started, ?skipRounds_started, ?jump_started,
      ?finishRound_started; reflexivity.
Qed.

Lemma exec_frame a c a' :
  exec a c = Some a' ->
  running a' = runningAfter (running a) [c] /\
  halflife a' = halflife a /\ started a' = started a.
Proof.
  destruct c as [t|t|t]; cbn [exec runningAfter]; unfold Start, Stop.
  - destruct (running a) eqn:R; [intros [= <-]; auto|].
    destruct (Read a t) as [[b v]|] eqn:E; [|discriminate].
    intros [= <-]. pose proof (Read_started a t b v E) as S.
    apply Read_Some in E as (_ & _ & Hh & _). cbn. auto.
  - destruct (running a) eqn:R; cbn [negb]; [|intros [= <-]; auto].
    destruct (Read a t) as [[b v]|] eqn:E; [|discriminate].
    intros [= <-]. pose proof (Read_started a t b v E) as S.
    apply Read_Some in E as (_ & _ & Hh & _). cbn. auto.
  - destruct (Read a t) as [[b v]|] eqn:E; [|discriminate].
    intros [= <-]. pose proof (Read_started a t b v E) as S.
    apply Read_Some in E as (_ & Hr & Hh & _). auto.
Qed.

(** X2. Along any sequence of calls on a meter with a non-zero half-life,
    [halflife] and [started] keep the values they had ([Start] does not
    record its time), and [running] ends as the last [Start] or [Stop] of
    the sequence left it, whatever the times of the calls. *)
Theorem run_frame a cs :
  halflife a <> 0 ->
  exists a',
    run a cs = Some a' /\
    running a' = runningAfter (running a) cs /\
    halflife a' = halflife a /\ started a' = started a.
Proof.
  revert a. induction cs as [|c cs IH]; intros a Hh.
  - exists a. cbn. auto.
  - destruct (exec_total a c Hh) as [b E].
    destruct (exec_frame a c b E) as (Br & Bh & Bs).
    destruct (IH b) as (a' & R & Ar & Ah & As); [congruence|].
    exists a'. cbn [run]. rewrite E. split; [exact R|].
    rewrite Ar, Ah, As, Br, Bh, Bs. repeat split.
    destruct c; reflexivity.
Qed.

(** X3. [Stop] and then [Start] at the same instant on a running meter
    leave exactly the meter a single [Read] at that instant leaves: the
    second call's [Read] is stopped by the guard. *)
Theorem Stop_then_Start_same_instant a now :
  running a = true -> halflife a <> 0 ->
  exists a1 a2,
    Read a now = Some (a1, value a1) /\
    Stop a now = Some a2 /\ running a2 = false /\
    Start a2 now = Some a1.
Proof.
  intros R Hh. destruct (Read_total a now Hh) as [a1 E].
  exists a1, (set_running a1 false).
  split; [exact E|]. unfold Stop, Start. rewrite R, E. cbn [negb].
  split; [reflexivity|]. split; [reflexivity|].
  cbn [running set_running].
  apply Read_Some in E as (_ & R1 & _ & G).
  assert (Hg : After now (lastUpdated a1) = false).
  { unfold After. apply Z.ltb_ge. destruct G as [[-> G]|[_ G]]; lia. }
  unfold Read. cbn [lastUpdated set_running]. rewrite Hg. cbn [negb].
  destruct a1 as [r s h u N L]. cbn in R1. rewrite R1, R. reflexivity.
Qed.

(** *** Moving the time axis *)

Lemma After_shift (t u d : Z) : After (t + d) (u + d) = After t u.
Proof.
  unfold After. destruct (Z.ltb_spec u t), (Z.ltb_spec (u + d) (t + d));
    try reflexivity; lia.
Qed.

Lemma Sub_shift (t u d : Z) : Sub (t + d) (u + d) = Sub t u.
Proof. unfold Sub. f_equal. f_equal. lia. Qed.

Lemma Add_shift (t : Time) (e d : Z) :
  valid (t + e) -> valid (t + d + e) -> Add (t + d) e = Add t e + d.
Proof. intros V1 V2. rewrite !Add_exact by assumption. lia. Qed.

Lemma finishRound_shift d a :
  valid (nextHalvening a + halflife a) ->
  valid (nextHalvening a + d + halflife a) ->
  finishRound (shiftTime d a) = shiftTime d (finishRound a).
Proof.
  destruct a as [r s h u N L]. cbn [nextHalvening halflife]. intros V1 V2.
  unfold finishRound, shiftTime, set_value, set_lastUpdated, set_nextHalvening.
  destruct r; cbn; rewrite ?Sub_shift, (Add_shift N h d V1 V2); reflexivity.
Qed.

Lemma jump_shift d a now :
  valid (now + halflife a) -> valid (now + d + halflife a) ->
  jump (shiftTime d a) (now + d) = shiftTime d (jump a now).
Proof.
  destruct a as [r s h u N L]. cbn [halflife]. intros V1 V2.
  unfold jump, shiftTime, set_value, set_lastUpdated, set_nextHalvening.
  destruct r; cbn; rewrite (Add_shift now h d V1 V2); reflexivity.
Qed.

Lemma skipRounds_shift d a k :
  valid (lastUpdated a + int64.mul (halflife a) k) ->
  valid (lastUpdated a + d + int64.mul (halflife a) k) ->
  valid (nextHalvening a + int64.mul (halflife a) k) ->
  valid (nextHalvening a + d + int64.mul (halflife a) k) ->
  skipRounds (shiftTime d a) k = shiftTime d (skipRounds a k).
Proof.
  destruct a as [r s h u N L].
  cbn [lastUpdated nextHalvening halflife]. intros V1 V2 V3 V4.
  unfold skipRounds, shiftTime, set_value, set_lastUpdated, set_nextHalvening.
  destruct r; cbn;
    rewrite (Add_shift L _ d V1 V2), (Add_shift N _ d V3 V4); reflexivity.
Qed.

Lemma incrementRound_shift d a now :
  incrementRound (shiftTime d a) (now + d) = shiftTime d (incrementRound a now).
Proof.
  destruct a as [r s h u N L].
  unfold incrementRound, shiftTime, set_value, set_lastUpdated.
  destruct r; cbn; rewrite ?Sub_shift; reflexivity.
Qed.

(** X4. Away from the ends of what a [Time] can hold, the meter knows
    time differences only: for a positive half-life, with [nextHalvening]
    not before the first instant and [now] one half-life before the last,
    before the move and after it, moving [lastUpdated], [nextHalvening]
    and [now] by the same [d] moves the timestamps of the result by [d]
    and does not change the value returned. *)
Theorem Read_shift (d : Z) a now :
  0 < halflife a ->
  minTime <= nextHalvening a -> minTime <= nextHalvening a + d ->
  now + halflife a <= maxTime -> now + d + halflife a <= maxTime ->
  Read (shiftTime d a) (now + d) =
  match Read a now with
  | Some (a', v) => Some (shiftTime d a', v)
  | None => None
  end.
Proof.
  intros Hh Hmin Hmin' Hend Hend'.
  pose proof (Sub_in_range now (nextHalvening a)) as Hr.
  unfold Read at 1.
  cbn [lastUpdated nextHalvening halflife value shiftTime].
  rewrite !After_shift.
  destruct (Read_path a now)
    as [G|HL G|HL HN G|HL HN G|k HL HN Hlt Hq G|k HL HN Hlt Hq G];
    destruct (finishRound_fields a) as (_ & Fh & FL & FN).
  - rewrite G. reflexivity.
  - rewrite HL, G. cbn [negb]. rewrite incrementRound_shift. reflexivity.
  - rewrite HL, HN. cbn [negb]. times.
    rewrite finishRound_shift by (unfold valid; lia).
    cbn [lastUpdated halflife shiftTime]. rewrite FL, Fh, Sub_shift.
    destruct (Z.ltb_spec (halflife a) (Sub now (nextHalvening a))); [lia|].
    rewrite incrementRound_shift. reflexivity.
  - lia.
  - rewrite HL, HN. cbn [negb]. times.
    rewrite finishRound_shift by (unfold valid; lia).
    cbn [lastUpdated halflife shiftTime]. rewrite FL, Fh, Sub_shift.
    destruct (Z.ltb_spec (halflife a) (Sub now (nextHalvening a))); [|lia].
    rewrite Hq.
    destruct (Z.ltb_spec maxSkippedIntervals k); [|lia].
    rewrite jump_shift by (rewrite Fh; unfold valid; lia). reflexivity.
  - rewrite HL, HN. cbn [negb]. times.
    rewrite finishRound_shift by (unfold valid; lia).
    cbn [lastUpdated halflife shiftTime]. rewrite FL, Fh, Sub_shift.
    destruct (Z.ltb_spec (halflife a) (Sub now (nextHalvening a))); [|lia].
    rewrite Hq.
    destruct (Z.ltb_spec maxSkippedIntervals k); [lia|].
    destruct (quo_pos (Sub now (nextHalvening a)) (halflife a))
      as (Hq' & Hk & Hlo & Hhi); [lia|lia|].
    rewrite Hq' in Hq. injection Hq as <-.
    pose proof (Sub_le now (nextHalvening a) HN) as Hle.
    assert (Em : int64.mul (halflife a) (Sub now (nextHalvening a) ÷ halflife a)
                 = halflife a * (Sub now (nextHalvening a) ÷ halflife a)).
    { unfold int64.mul. apply wrap_in_range.
      unfold int64.min, int64.max in *. nia. }
    assert (EN : Add (nextHalvening a) (halflife a)
                 = nextHalvening a + halflife a)
      by (apply Add_exact; unfold valid; lia).
    rewrite skipRounds_shift, incrementRound_shift;
      rewrite ?FL, ?FN, ?Fh, ?Em, ?EN; try reflexivity; unfold valid; nia.
Qed.

(** X5. Where a call of [Read] leaves [nextHalvening], for a positive
    half-life, a [nextHalvening] not before the first instant a [Time]
    can hold and a [now] one half-life before the last: at
    [now + halflife] (the jump), or a whole number of half-lives, at most
    33, after where it was (none when the call does not go past it). *)
Theorem Read_moves_nextHalvening a now :
  0 < halflife a ->
  minTime <= nextHalvening a -> now + halflife a <= maxTime ->
  exists a',
    Read a now = Some (a', value a') /\
    (nextHalvening a' = now + halflife a \/
     exists m, 0 <= m <= maxSkippedIntervals + 1 /\
               nextHalvening a' = nextHalvening a + m * halflife a /\
               (After now (nextHalvening a) = false -> m = 0)).
Proof.
  intros Hh Hmin Hend. unfold maxSkippedIntervals.
  pose proof (finishRound_fields a) as (_ & Fh & FL & FN).
  pose proof (Sub_in_range now (nextHalvening a)) as Hr.
  destruct (Read_path a now)
    as [G|HL G|HL HN G|HL HN G|k HL HN Hlt Hq G|k HL HN Hlt Hq G].
  - exists a. split; [reflexivity|]. right. exists 0. repeat split; lia.
  - eexists. split; [reflexivity|]. right. exists 0.
    destruct (incrementRound_fields a now) as (_ & _ & _ & ->).
    repeat split; lia.
  - eexists. split; [reflexivity|]. right. exists 1. times.
    destruct (incrementRound_fields (finishRound a) now) as (_ & _ & _ & ->).
    rewrite FN, Add_exact by (unfold valid; lia).
    repeat split; try lia. unfold After. intros C. apply Z.ltb_ge in C. lia.
  - lia.
  - eexists. split; [reflexivity|]. left. times.
    destruct (jump_fields (finishRound a) now) as (_ & _ & _ & ->).
    rewrite Fh, Add_exact by (unfold valid; lia). reflexivity.
  - eexists. split; [reflexivity|]. right. times.
    destruct (quo_pos (Sub now (nextHalvening a)) (halflife a))
      as (Hq' & Hk & Hlo & Hhi); [lia|lia|].
    rewrite Hq' in Hq. injection Hq as <-.
    pose proof (Sub_le now (nextHalvening a) HN) as Hle.
    set (k := Z.quot (Sub now (nextHalvening a)) (halflife a)) in *.
    unfold maxSkippedIntervals in G. exists (1 + k).
    destruct (incrementRound_fields (skipRounds (finishRound a) k) now)
      as (_ & _ & _ & ->).
    destruct (skipRounds_fields (finishRound a) k) as (_ & _ & _ & ->).
    rewrite FN, Fh. unfold int64.mul.
    rewrite wrap_in_range by (unfold int64.min, int64.max in *; nia).
    rewrite (Add_exact (nextHalvening a) (halflife a)) by (unfold valid; lia).
    rewrite Add_exact by (unfold valid; nia).
    repeat split; try lia. unfold After. intros C. apply Z.ltb_ge in C. lia.
Qed.

(** *** Reads inside the current round *)

(** What comes after lines 55-61 reads the meter they leave: two meters
    that agree there but for [value] end with the same fields but for
    [value], and with the same [value] too when they are stopped and agree
    on it. *)
Lemma Read_crossing_same a b now :
  halflife a <> 0 ->
  After now (lastUpdated a) = true -> After now (nextHalvening a) = true ->
  After now (lastUpdated b) = true ->
  running b = running a -> started b = started a ->
  halflife b = halflife a -> nextHalvening b = nextHalvening a ->
  exists a' b',
    Read a now = Some (a', value a') /\ Read b now = Some (b', value b') /\
    running a' = running b' /\ started a' = started b' /\
    halflife a' = halflife b' /\ lastUpdated a' = lastUpdated b' /\
    nextHalvening a' = nextHalvening b' /\
    (running a = false -> value a = value b -> a' = b').
Proof.
  destruct a as [r s h u N L], b as [r' s' h' u' N' L'].
  cbn [running started halflife value nextHalvening lastUpdated].
  intros Hh HLa HNa HLb -> -> -> ->. unfold Read.
  cbn [running started halflife value nextHalvening lastUpdated].
  rewrite HLa, HNa, HLb. cbn [negb]. cbv zeta.
  destruct (finishRound_fields
              {| running := r; started := s; halflife := h; value := u;
                 nextHalvening := N; lastUpdated := L |}) as (_ & -> & -> & _).
  destruct (finishRound_fields
              {| running := r; started := s; halflife := h; value := u';
                 nextHalvening := N; lastUpdated := L' |}) as (_ & -> & -> & _).
  cbn [running started halflife value nextHalvening lastUpdated].
  destruct (Z.ltb_spec h (Sub now N)).
  - unfold int64.quo. destruct (Z.eqb_spec h 0); [contradiction|].
    destruct (Z.ltb_spec maxSkippedIntervals (int64.wrap (Sub now N ÷ h)));
      do 2 eexists; (split; [reflexivity|]); (split; [reflexivity|]);
      destruct r; cbn; repeat split; try discriminate; intros _ ->; reflexivity.
  - do 2 eexists. split; [reflexivity|]. split; [reflexivity|].
    destruct r; cbn; repeat split; try discriminate; intros _ ->; reflexivity.
Qed.

(** X7. A [Read] inside the current round does not change what a later
    [Read] does to the timestamps, and on a stopped meter it changes
    nothing at all: for [lastUpdated < t1 <= nextHalvening] and
    [t1 <= t2], [Read] at [t1] and then at [t2] leaves the [running],
    [halflife], [started], [lastUpdated] and [nextHalvening] that [Read]
    at [t2] alone leaves, and on a stopped meter the same meter.  (On a
    running meter the two values can differ in the last place: the time
    run is added in two rounded steps instead of one.) *)
Theorem Read_in_round_then_Read a t1 t2 :
  halflife a <> 0 ->
  lastUpdated a < t1 <= nextHalvening a -> t1 <= t2 ->
  exists a1 b b',
    Read a t1 = Some (a1, value a1) /\
    Read a1 t2 = Some (b, value b) /\
    Read a t2 = Some (b', value b') /\
    running b = running b' /\ started b = started b' /\
    halflife b = halflife b' /\ lastUpdated b = lastUpdated b' /\
    nextHalvening b = nextHalvening b' /\
    (running a = false -> b = b').
Proof.
  intros Hh Ht1 Ht2.
  assert (E1 : Read a t1 = Some (incrementRound a t1, value (incrementRound a t1))).
  { unfold Read, After.
    destruct (Z.ltb_spec (lastUpdated a) t1); [|lia].
    destruct (Z.ltb_spec (nextHalvening a) t1); [lia|]. reflexivity. }
  set (a1 := incrementRound a t1) in *.
  destruct (incrementRound_fields a t1) as (R1 & H1 & L1 & N1).
  pose proof (incrementRound_started a t1) as S1.
  fold a1 in R1, H1, L1, N1, S1.
  exists a1.
  destruct (Z.le_gt_cases t2 (nextHalvening a)) as [Hin|Hout].
  - assert (E2 : Read a t2 = Some (incrementRound a t2, value (incrementRound a t2))).
    { unfold Read, After.
      destruct (Z.ltb_spec (lastUpdated a) t2); [|lia].
      destruct (Z.ltb_spec (nextHalvening a) t2); [lia|]. reflexivity. }
    destruct (Z.eq_dec t1 t2) as [<-|Hne].
    + exists a1, a1. split; [exact E1|]. split; [|split; [exact E2|]].
      * unfold Read, After. rewrite L1.
        destruct (Z.ltb_spec t1 t1); [lia|]. reflexivity.
      * repeat split.
    + exists (incrementRound a1 t2), (incrementRound a t2).
      split; [exact E1|]. split; [|split; [exact E2|]].
      * unfold Read, After. rewrite L1, N1.
        destruct (Z.ltb_spec t1 t2); [|lia].
        destruct (Z.ltb_spec (nextHalvening a) t2); [lia|]. reflexivity.
      * subst a1. destruct a as [r s h u N L]. unfold incrementRound.
        destruct r; cbn; repeat split; try discriminate.
  - destruct (Read_crossing_same a1 a t2) as (b & b' & Eb & Eb' & Fs);
      try congruence.
    + unfold After. apply Z.ltb_lt. lia.
    + unfold After. apply Z.ltb_lt. lia.
    + unfold After. apply Z.ltb_lt. lia.
    + exists b, b'. split; [exact E1|]. split; [exact Eb|]. split; [exact Eb'|].
      destruct Fs as (F1 & F2 & F3 & F4 & F5 & F6).
      repeat split; try assumption.
      intros R. apply F6; [congruence|].
      subst a1. apply incrementRound_stopped. exact R.
Qed.

End MoreAnyArithmetic.

(** ** In exact arithmetic *)

Section MoreExact.

Implicit Types (a b : intervalMeter Q) (now : Time).

Local Open Scope Q_scope.

Ltac qconst :=
  change (inject_Z 2) with 2 in *;
  change (inject_Z 1) with 1 in *;
  change (inject_Z 0) with 0 in *.

Ltac halves := unfold Qdiv in *; change (/ 2) with (1 # 2) in *.

(** X6. While the meter is stopped, [Read] never raises [value] and never
    makes it negative; a [Read] that goes past [nextHalvening] at least
    halves it. *)
Theorem Read_stopped_decays a now :
  (0 < halflife a)%Z -> running a = false -> 0 <= value a ->
  exists a',
    Read a now = Some (a', value a') /\
    0 <= value a' <= value a /\
    (After now (nextHalvening a) = true -> After now (lastUpdated a) = true ->
     value a' <= value a / 2).
Proof.
  intros Hh R V.
  pose proof (Sub_in_range now (nextHalvening a)) as Hr.
  pose proof (finishRound_fields a) as (Fr & _). rewrite R in Fr.
  pose proof (finishRound_stopped a R) as Fv.
  destruct (Read_path a now)
    as [G|HL G|HL HN G|HL HN G|k HL HN Hlt Hq G|k HL HN Hlt Hq G].
  - exists a. split; [reflexivity|]. split; [lra|]. congruence.
  - eexists. split; [reflexivity|].
    rewrite (incrementRound_stopped a now R). split; [lra|]. congruence.
  - eexists. split; [reflexivity|].
    rewrite (incrementRound_stopped _ now Fr), Fv. cbn. qconst. halves.
    split; [lra|]. intros _ _. lra.
  - lia.
  - eexists. split; [reflexivity|].
    rewrite (jump_stopped _ now Fr). cbn. qconst. halves.
    split; [lra|]. intros _ _. lra.
  - times.
    destruct (quo_pos (Sub now (nextHalvening a)) (halflife a))
      as (Hq' & Hk & Hlo & Hhi); [lia|lia|].
    rewrite Hq' in Hq. injection Hq as <-.
    set (k := Z.quot (Sub now (nextHalvening a)) (halflife a)) in *.
    assert (Hk1 : (1 <= k)%Z) by nia.
    pose proof (factor_bounds k ltac:(lia)) as [F0 F1].
    destruct (skipRounds_fields (finishRound a) k) as (Sr & _).
    rewrite Fr in Sr.
    eexists. split; [reflexivity|].
    rewrite (incrementRound_stopped _ now Sr).
    rewrite (skipRounds_stopped _ k Fr), Fv. cbn. qconst.
    set (f := 1 / inject_Z (int64.shl 1 (int64.to_uint k))) in *.
    clearbody f. halves.
    assert (A1 : 0 <= value a * f) by (apply Qmult_le_0_compat; lra).
    assert (A2 : 0 <= value a * (1 - f)) by (apply Qmult_le_0_compat; lra).
    split; [lra|]. intros _ _. lra.
Qed.

End MoreExact.

(** ** The first call on a new meter *)

(** X9. On a new meter with a positive half-life, [Start] at any time
    after the zero time returns with the meter running, [value] exactly 0
    and [lastUpdated] at the time of the call. *)
Theorem Start_new_meter (h : Duration) (now : Time) :
  0 < h -> 0 < now ->
  exists a : intervalMeter float,
    Start (NewIntervalMeter h) now = Some a /\
    running a = true /\ value a = 0%float /\
    lastUpdated a = now /\ halflife a = h.
Proof.
  intros Hh Hnow.
  destruct (Read_never_started (NewIntervalMeter h) now)
    as (a & E & Ah & Ar & Av); [exact Hh|reflexivity|reflexivity|].
  exists (set_running a true). unfold Start.
  cbn [running NewIntervalMeter]. rewrite E.
  apply Read_Some in E as (_ & _ & _ & [[-> G]|[_ G]]).
  - cbn in G. unfold zero in G. lia.
  - cbn in Ah. cbn [running value lastUpdated halflife set_running]. auto.
Qed.

(** ** The further theorems at concrete meters *)

Lemma run_frame_witness :
  let a : intervalMeter float := NewIntervalMeter Second in
  let cs := [CallStart (5 * Second); CallRead (3 * Second);
             CallStop (9 * Second); CallRead (20 * Second)] in
  halflife a <> 0 /\
  exists a',
    run a cs = Some a' /\
    running a' = runningAfter (running a) cs /\
    halflife a' = halflife a /\ started a' = started a.
Proof.
  intros a cs. split; [discriminate|].
  apply (run_frame a cs). discriminate.
Defined.

Lemma Stop_then_Start_same_instant_witness :
  let a : intervalMeter float :=
    {| running := true; started := zero; halflife := Second;
       value := 0.5%float;
       nextHalvening := Second; lastUpdated := Second |} in
  (running a = true /\ halflife a <> 0) /\
  exists a1 a2,
    Read a (3 * Second) = Some (a1, value a1) /\
    Stop a (3 * Second) = Some a2 /\ running a2 = false /\
    Start a2 (3 * Second) = Some a1.
Proof.
  intros a. split; [split; [reflexivity|discriminate]|].
  apply (Stop_then_Start_same_instant a (3 * Second)); [reflexivity|discriminate].
Defined.

Lemma Read_shift_witness :
  let a : intervalMeter float :=
    {| running := true; started := zero; halflife := Second;
       value := 0.5%float;
       nextHalvening := Second; lastUpdated := Second |} in
  let now : Time := 4500000000 in
  let d : Z := (62135596800 + 1600000000) * Second in
  (0 < halflife a /\
   minTime <= nextHalvening a /\ minTime <= nextHalvening a + d /\
   now + halflife a <= maxTime /\ now + d + halflife a <= maxTime) /\
  Read (shiftTime d a) (now + d) =
  match Read a now with
  | Some (a', v) => Some (shiftTime d a', v)
  | None => None
  end.
Proof.
  intros a now d.
  assert (H1 : 0 < halflife a) by reflexivity.
  assert (H2 : minTime <= nextHalvening a) by (vm_compute; discriminate).
  assert (H3 : minTime <= nextHalvening a + d) by (vm_compute; discriminate).
  assert (H4 : now + halflife a <= maxTime) by (vm_compute; discriminate).
  assert (H5 : now + d + halflife a <= maxTime) by (vm_compute; discriminate).
  split; [exact (conj H1 (conj H2 (conj H3 (conj H4 H5))))|].
  apply (Read_shift d a now H1 H2 H3 H4 H5).
Defined.

Lemma Read_moves_nextHalvening_witness :
  let a : intervalMeter float :=
    {| running := true; started := zero; halflife := Second;
       value := 0.5%float;
       nextHalvening := Second; lastUpdated := Second |} in
  let now : Time := 4500000000 in
  (0 < halflife a /\
   minTime <= nextHalvening a /\ now + halflife a <= maxTime) /\
  exists a',
    Read a now = Some (a', value a') /\
    (nextHalvening a' = now + halflife a \/
     exists m, 0 <= m <= maxSkippedIntervals + 1 /\
               nextHalvening a' = nextHalvening a + m * halflife a /\
               (After now (nextHalvening a) = false -> m = 0)).
Proof.
  intros a now.
  assert (H1 : 0 < halflife a) by reflexivity.
  assert (H2 : minTime <= nextHalvening a) by (vm_compute; discriminate).
  assert (H3 : now + halflife a <= maxTime) by (vm_compute; discriminate).
  split; [exact (conj H1 (conj H2 H3))|].
  apply (Read_moves_nextHalvening a now H1 H2 H3).
Defined.

Lemma Read_stopped_decays_witness :
  let a : intervalMeter Q :=
    {| running := false; started := zero; halflife := Second;
       value := (1 # 2)%Q;
       nextHalvening := 2 * Second; lastUpdated := Second |} in
  let now : Time := 4500000000 in
  ((0 < halflife a)%Z /\ running a = false /\ (0 <= value a)%Q) /\
  exists a',
    Read a now = Some (a', value a') /\
    (0 <= value a' <= value a)%Q /\
    (After now (nextHalvening a) = true -> After now (lastUpdated a) = true ->
     (value a' <= value a / 2)%Q).
Proof.
  intros a now.
  assert (V : (0 <= value a)%Q) by (cbn; discriminate).
  split; [exact (conj eq_refl (conj eq_refl V))|].
  apply (Read_stopped_decays a now eq_refl eq_refl V).
Defined.

Lemma Read_in_round_then_Read_witness :
  let a : intervalMeter float :=
    {| running := false; started := zero; halflife := Second;
       value := 0.5%float;
       nextHalvening := 2 * Second; lastUpdated := Second |} in
  let t1 : Time := 1300000000 in
  let t2 : Time := 2500000000 in
  (halflife a <> 0 /\ lastUpdated a < t1 <= nextHalvening a /\ t1 <= t2) /\
  exists a1 b b',
    Read a t1 = Some (a1, value a1) /\
    Read a1 t2 = Some (b, value b) /\
    Read a t2 = Some (b', value b') /\
    running b = running b' /\ started b = started b' /\
    halflife b = halflife b' /\ lastUpdated b = lastUpdated b' /\
    nextHalvening b = nextHalvening b' /\
    (running a = false -> b = b').
Proof.
  intros a t1 t2.
  assert (H1 : halflife a <> 0) by discriminate.
  assert (H2 : lastUpdated a < t1 <= nextHalvening a)
    by (split; [reflexivity|discriminate]).
  assert (H3 : t1 <= t2) by discriminate.
  split; [exact (conj H1 (conj H2 H3))|].
  apply (Read_in_round_then_Read a t1 t2 H1 H2 H3).
Defined.

Lemma Start_new_meter_witness :
  (0 < Second /\ 0 < 5 * Second) /\
  exists a : intervalMeter float,
    Start (NewIntervalMeter Second) (5 * Second) = Some a /\
    running a = true /\ value a = 0%float /\
    lastUpdated a = 5 * Second /\ halflife a = Second.
Proof.
  split; [split; reflexivity|].
  apply (Start_new_meter Second (5 * Second)); reflexivity.
Defined.
